(** * hype-arb-engine: the two market-data clients

    A shallow embedding of [src/lib/boros/client.ts] (class [BorosClient]) and
    of the Hyperliquid client shipped in the same source bundle (class
    [HyperliquidClient]), followed by the properties of the specification
    that concern them.

    Conventions of the embedding.
    - A JavaScript number that is written in decimal (a literal of the
      source, the result of [parseFloat]) is a [number]: the decimal
      [m / 10^k], or NaN, or an infinity.  Comparison with zero, negation and
      [Math.abs] are exact on it.
    - Where the code computes with [+], [-] and [*] (the synthetic rates of
      [getMockHistoricalRates]) the operands are binary64 values, [double],
      and every operation rounds its exact result to the nearest binary64
      value, ties to even, with gradual underflow and overflow to an
      infinity.  The sign of zero is not modelled.
    - The value produced by [response.json()] is a [json]; an object is a
      finite map from property names to values.  Property assignment on a
      plain object is a map insertion, except under the name [__proto__],
      which a plain object inherits from [Object.prototype] as a setter.
    - [async] functions are functions of the outcome of their single
      [fetch]; a rejected promise is a [Throw], a fulfilled one a [Return].
    - The WebSocket side is a transition system over the client's
      [wsConnection] field, the sockets it has created and the timers it has
      set. *)

From Equations Require Import Equations.
From stdpp Require Import gmap strings list fin_maps.
From Stdlib Require Import Ascii DecimalString DecimalN ZArith QArith Qabs Qround Qpower.
From Stdlib Require Import Lia Lqa.
From Stdlib Require PrimFloat FloatOps.

#[local] Open Scope Z_scope.
#[local] Set Warnings "-register-all".

(** ** JavaScript numbers *)

Module Num.

Inductive number : Type :=
| NaN
| Infinity (negative : bool)
| Fin (m : Z) (k : nat).   (* the decimal m / 10^k *)

(** Canonical form: no trailing zero behind the decimal point. *)
Fixpoint norm (m : Z) (k : nat) : number :=
  match k with
  | O => Fin m O
  | S k' => if m mod 10 =? 0 then norm (m / 10) k' else Fin m k
  end.

Definition of_Z (z : Z) : number := Fin z 0.

Definition pow10 (k : nat) : Z := 10 ^ Z.of_nat k.

Definition neg (x : number) : number :=
  match x with
  | NaN => NaN
  | Infinity s => Infinity (negb s)
  | Fin m k => Fin (- m) k
  end.

(** [Math.abs(x)] *)
Definition abs (x : number) : number :=
  match x with
  | NaN => NaN
  | Infinity _ => Infinity false
  | Fin m k => Fin (Z.abs m) k
  end.

(** [x < y]; any comparison with NaN is false. *)
Definition ltb (x y : number) : bool :=
  match x, y with
  | NaN, _ | _, NaN => false
  | Infinity s, Infinity t => s && negb t
  | Infinity s, Fin _ _ => s
  | Fin _ _, Infinity t => negb t
  | Fin a i, Fin b j => a * pow10 j <? b * pow10 i
  end.

(** [x > y] *)
Definition gtb (x y : number) : bool := ltb y x.

(** Truthiness of a number: [0] and [NaN] are falsy. *)
Definition truthy (x : number) : bool :=
  match x with
  | NaN => false
  | Infinity _ => true
  | Fin m _ => negb (m =? 0)
  end.

(** The rational a finite number denotes (0 for the others). *)
Definition to_Q (x : number) : Q :=
  match x with
  | Fin m k => inject_Z m / inject_Z (pow10 k)
  | _ => 0%Q
  end.

End Num.

Export Num.

(** ** Binary64 arithmetic

    A finite binary64 value is [m * 2^e] with [|m| < 2^53] and
    [-1074 <= e <= 971].  An operation computes the exact rational result and
    rounds it: to the nearest multiple of [2^e], where [e] is the exponent of
    the values around the result (never below -1074), and to the even
    multiple when two are equally near; a result whose exponent exceeds 971
    is an infinity. *)

Inductive double : Type :=
| DNaN
| DInfinity (negative : bool)
| DFin (m e : Z).   (* the binary fraction m * 2^e *)

Module Double.

Definition precision : Z := 53.
Definition emin : Z := -1074.
Definition emax : Z := 1024.

Definition pow2 (e : Z) : Q := (2 ^ e)%Q.

Definition val (m e : Z) : Q := (inject_Z m * pow2 e)%Q.

(** [floor (log2 x)], for [0 < x]. *)
Definition ilog2 (x : Q) : Z :=
  let k := Z.log2 (Qnum x) - Z.log2 (Zpos (Qden x)) in
  if Qle_bool (pow2 k) x then k else k - 1.

(** The nearest integer, the even one of two that are equally near. *)
Definition rne (q : Q) : Z :=
  let f := Qfloor q in
  match (q - inject_Z f ?= 1 # 2)%Q with
  | Lt => f
  | Gt => f + 1
  | Eq => if Z.even f then f else f + 1
  end.

(** The exponent of the binary64 values around [x]: 52 below that of its
    leading bit, and [emin] in the subnormal range. *)
Definition ulp_exp (x : Q) : Z := Z.max (ilog2 (Qabs x) - (precision - 1)) emin.

(** Significand and exponent of the binary64 value nearest to [x], before
    the test for overflow.  A significand that rounds up to [2^53] moves to
    the next exponent. *)
Definition round (x : Q) : Z * Z :=
  let e := ulp_exp x in
  let m := rne (x / pow2 e) in
  if m =? 0 then (0, 0)
  else if Z.abs m =? 2 ^ precision then (m / 2, e + 1)
  else (m, e).

Definition of_Q (x : Q) : double :=
  let (m, e) := round x in
  if emax - precision <? e then DInfinity (m <? 0) else DFin m e.

(** The rational that [round x] denotes. *)
Definition rnd (x : Q) : Q :=
  (inject_Z (rne (x / pow2 (ulp_exp x))) * pow2 (ulp_exp x))%Q.

(** The rational a finite value denotes (0 for the others). *)
Definition to_Q (x : double) : Q :=
  match x with
  | DFin m e => val m e
  | _ => 0%Q
  end.

Definition finite (x : double) : Prop :=
  match x with DFin _ _ => True | _ => False end.

(** The value of a decimal literal. *)
Definition of_number (x : number) : double :=
  match x with
  | NaN => DNaN
  | Infinity s => DInfinity s
  | Fin _ _ => of_Q (Num.to_Q x)
  end.

(** A binary64 value written out in decimal, digit for digit. *)
Definition to_number (x : double) : number :=
  match x with
  | DNaN => NaN
  | DInfinity s => Infinity s
  | DFin m e =>
      if 0 <=? e then Fin (m * 2 ^ e) 0
      else norm (m * 5 ^ (- e)) (Z.to_nat (- e))
  end.

Definition neg (x : double) : double :=
  match x with
  | DNaN => DNaN
  | DInfinity s => DInfinity (negb s)
  | DFin m e => DFin (- m) e
  end.

(** [x + y] *)
Definition add (x y : double) : double :=
  match x, y with
  | DNaN, _ | _, DNaN => DNaN
  | DInfinity s, DInfinity t => if Bool.eqb s t then DInfinity s else DNaN
  | DInfinity s, DFin _ _ | DFin _ _, DInfinity s => DInfinity s
  | DFin a i, DFin b j => of_Q (val a i + val b j)
  end.

(** [x - y] *)
Definition sub (x y : double) : double := add x (neg y).

(** [x * y] *)
Definition mul (x y : double) : double :=
  match x, y with
  | DNaN, _ | _, DNaN => DNaN
  | DInfinity s, DInfinity t => DInfinity (xorb s t)
  | DInfinity s, DFin m _ | DFin m _, DInfinity s =>
      if m =? 0 then DNaN else DInfinity (xorb s (m <? 0))
  | DFin a i, DFin b j => of_Q (val a i * val b j)
  end.

(** [x <= y]; any comparison with NaN is false. *)
Definition leb (x y : double) : bool :=
  match x, y with
  | DNaN, _ | _, DNaN => false
  | DInfinity s, DInfinity t => s || negb t
  | DInfinity s, DFin _ _ => s
  | DFin _ _, DInfinity t => negb t
  | DFin a i, DFin b j => Qle_bool (val a i) (val b j)
  end.

(** The value of one of Rocq's own binary64 numbers, for comparison. *)
Definition of_float (x : PrimFloat.float) : double :=
  match FloatOps.Prim2SF x with
  | SpecFloat.S754_zero _ => DFin 0 0
  | SpecFloat.S754_infinity s => DInfinity s
  | SpecFloat.S754_nan => DNaN
  | SpecFloat.S754_finite s m e => DFin (if s then Z.neg m else Z.pos m) e
  end.

End Double.

(** ** Strings: decimal digits, [parseFloat], [Number.prototype.toString] *)

Module Str.

Definition code (c : ascii) : Z := Z.of_N (Ascii.N_of_ascii c).

(** White space and line terminators among the code units below 256. *)
Definition is_white (c : ascii) : bool :=
  let n := code c in
  (n =? 9) || (n =? 10) || (n =? 11) || (n =? 12) || (n =? 13)
  || (n =? 32) || (n =? 160).

Fixpoint trim_start (s : string) : string :=
  match s with
  | String c r => if is_white c then trim_start r else s
  | EmptyString => s
  end.

Definition digit_of (c : ascii) : option Z :=
  let n := code c in
  if (48 <=? n) && (n <=? 57) then Some (n - 48) else None.

(** Reads the longest run of decimal digits at the head of [s], continuing
    the integer [acc]; returns the integer, the number of digits read and
    the rest of the string. *)
Fixpoint read_digits (s : string) (acc : Z) (n : nat) : Z * nat * string :=
  match s with
  | String c r =>
      match digit_of c with
      | Some d => read_digits r (10 * acc + d) (S n)
      | None => (acc, n, s)
      end
  | EmptyString => (acc, n, s)
  end.

(** [ExponentPart]: [e] or [E], an optional sign, at least one digit.  The
    value is 0 when the string does not start with a complete exponent. *)
Definition read_exponent (s : string) : Z :=
  match s with
  | String c r =>
      if (code c =? 101) || (code c =? 69) then
        let '(negative, r') :=
          match r with
          | String d r' =>
              if code d =? 45 then (true, r')
              else if code d =? 43 then (false, r')
              else (false, r)
          | EmptyString => (false, r)
          end in
        let '(e, n, _) := read_digits r' 0 0 in
        match n with
        | O => 0
        | S _ => if (negative : bool) then - e else e
        end
      else 0
  | EmptyString => 0
  end.

(** The value of the longest prefix that is a [StrUnsignedDecimalLiteral]. *)
Definition read_unsigned (s : string) : number :=
  if String.prefix "Infinity" s then Infinity false
  else
    let '(ip, ni, r1) := read_digits s 0 0 in
    let '(m, nf, r2) :=
      match r1 with
      | String c r =>
          if code c =? 46 then read_digits r ip 0 else (ip, O, r1)
      | EmptyString => (ip, O, r1)
      end in
    match (ni + nf)%nat with
    | O => NaN
    | S _ =>
        let e := read_exponent r2 - Z.of_nat nf in
        if 0 <=? e then Fin (m * 10 ^ e) 0 else norm m (Z.to_nat (- e))
    end.

(** [parseFloat(s)] for a string [s]. *)
Definition parseFloat (s : string) : number :=
  match trim_start s with
  | String c r =>
      if code c =? 45 then neg (read_unsigned r)
      else if code c =? 43 then read_unsigned r
      else read_unsigned (String c r)
  | EmptyString => NaN
  end.

(** Decimal digits of a natural number. *)
Definition digits_of_N (n : N) : string :=
  NilZero.string_of_uint (N.to_uint n).

Fixpoint zeros (n : nat) : string :=
  match n with
  | O => ""
  | S n' => String "0" (zeros n')
  end.

(** Removes the zeros at the end of a digit string; returns what is left. *)
Fixpoint strip_zeros (s : string) : string :=
  match s with
  | EmptyString => EmptyString
  | String c r =>
      match strip_zeros r with
      | EmptyString => if code c =? 48 then EmptyString else String c EmptyString
      | r' => String c r'
      end
  end.

Definition take (n : nat) (s : string) : string := String.substring 0 n s.
Definition drop (n : nat) (s : string) : string :=
  String.substring n (String.length s - n) s.

(** [Number::toString(x)] in radix 10, on the positive decimal [m / 10^k]:
    with [s] the significant digits, [kk] their count and [n] the position
    of the decimal point, as in the language specification. *)
Definition positive_toString (m : Z) (k : nat) : string :=
  let ds := digits_of_N (Z.to_N m) in
  let s := strip_zeros ds in
  let kk := Z.of_nat (String.length s) in
  let n := Z.of_nat (String.length ds) - Z.of_nat k in
  if (kk <=? n) && (n <=? 21) then
    s +:+ zeros (Z.to_nat (n - kk))
  else if (0 <? n) && (n <=? 21) then
    take (Z.to_nat n) s +:+ "." +:+ drop (Z.to_nat n) s
  else if (-6 <? n) && (n <=? 0) then
    "0." +:+ zeros (Z.to_nat (- n)) +:+ s
  else
    let e := n - 1 in
    let es := (if e <? 0 then "-" else "+") +:+ digits_of_N (Z.to_N (Z.abs e)) in
    if kk =? 1 then s +:+ "e" +:+ es
    else take 1 s +:+ "." +:+ drop 1 s +:+ "e" +:+ es.

Definition Number_toString (x : number) : string :=
  match x with
  | NaN => "NaN"
  | Infinity false => "Infinity"
  | Infinity true => "-Infinity"
  | Fin m k =>
      if m =? 0 then "0"
      else if m <? 0 then "-" +:+ positive_toString (- m) k
      else positive_toString m k
  end.

End Str.

Export Str.

(** ** Values, exceptions and the outcome of [fetch] *)

Module JS.

(** What [JSON.parse] and [response.json()] produce. *)
Inductive json : Type :=
| JNull
| JBool (b : bool)
| JNumber (x : number)
| JString (s : string)
| JArray (l : list json)
| JObject (m : gmap string json).

(** A thrown value: the [name] of the error's constructor and its [message]. *)
Record exn : Type := mkExn { name : string; message : string }.

(** [new Error(msg)] *)
Definition Error (msg : string) : exn := mkExn "Error" msg.
(** The [TypeError] of a property read on [null]; the text is the engine's. *)
Definition TypeError_null (prop : string) : exn :=
  mkExn "TypeError" ("Cannot read properties of null (reading '" +:+ prop +:+ "')").
Definition TypeError_not_function (what : string) : exn :=
  mkExn "TypeError" (what +:+ " is not a function").
Definition TypeError_not_object : exn :=
  mkExn "TypeError" "Cannot convert undefined or null to object".

(** Completion of a computation that may throw. *)
Inductive result (A : Type) : Type :=
| Return (a : A)
| Throw (e : exn).
Arguments Return {A} a.
Arguments Throw {A} e.

Definition bind {A B} (r : result A) (f : A -> result B) : result B :=
  match r with
  | Return a => f a
  | Throw e => Throw e
  end.

(** [try { r } catch (error) { h error }] *)
Definition try_catch {A} (r : result A) (h : exn -> result A) : result A :=
  match r with
  | Return a => Return a
  | Throw e => h e
  end.

Definition returns {A} (r : result A) : Prop :=
  match r with Return _ => True | Throw _ => False end.

(** [typeof v === 'string'] *)
Definition is_string (v : json) : bool :=
  match v with JString _ => true | _ => false end.

(** Truthiness; a property that is absent reads as [undefined] ([None]). *)
Definition truthy (v : json) : bool :=
  match v with
  | JNull => false
  | JBool b => b
  | JNumber x => Num.truthy x
  | JString s => negb (String.eqb s "")
  | JArray _ | JObject _ => true
  end.

Definition truthy_opt (o : option json) : bool :=
  match o with
  | Some v => truthy v
  | None => false
  end.

(** [v.prop], for a property name that no prototype defines.  Reading a
    property of [null] throws; a primitive or an array has no such property. *)
Definition get (v : json) (prop : string) : result (option json) :=
  match v with
  | JNull => Throw (TypeError_null prop)
  | JObject m => Return (m !! prop)
  | _ => Return None
  end.

(** [a || b] where [a] is the result of a property read. *)
Definition or_else (a : option json) (b : json) : json :=
  match a with
  | Some v => if truthy v then v else b
  | None => b
  end.

Fixpoint join (l : list string) : string :=
  match l with
  | [] => ""
  | [s] => s
  | s :: r => s +:+ "," +:+ join r
  end.

(** [String(v)] *)
Fixpoint ToString (v : json) : string :=
  match v with
  | JNull => "null"
  | JBool true => "true"
  | JBool false => "false"
  | JNumber x => Number_toString x
  | JString s => s
  | JArray l =>
      join (List.map (fun x => match x with JNull => "" | _ => ToString x end) l)
  | JObject _ => "[object Object]"
  end.

(** [parseFloat(x)] for any argument: the argument is converted to a string. *)
Definition parseFloat_any (o : option json) : number :=
  match o with
  | Some v => parseFloat (ToString v)
  | None => parseFloat "undefined"
  end.

Definition index_key (i : nat) : string := digits_of_N (N.of_nat i).

Fixpoint chars_from (i : nat) (s : string) : list (string * json) :=
  match s with
  | EmptyString => []
  | String c r => (index_key i, JString (String c EmptyString)) :: chars_from (S i) r
  end.

Fixpoint items_from (i : nat) (l : list json) : list (string * json) :=
  match l with
  | [] => []
  | x :: r => (index_key i, x) :: items_from (S i) r
  end.

(** [Object.entries(v)]: the own enumerable string-keyed properties. *)
Definition Object_entries (v : json) : result (list (string * json)) :=
  match v with
  | JNull => Throw TypeError_not_object
  | JBool _ | JNumber _ => Return []
  | JString s => Return (chars_from 0 s)
  | JArray l => Return (items_from 0 l)
  | JObject m => Return (map_to_list m)
  end.

(** The body of a response: text that [response.json()] parses, or text on
    which it rejects with the parser's [SyntaxError]. *)
Inductive body : Type :=
| Parsed (data : json)
| Malformed (e : exn).

Record Response : Type := mkResponse { status : Z; payload : body }.

(** [response.ok]: the status is in the range 200-299. *)
Definition ok (r : Response) : bool := (200 <=? status r) && (status r <=? 299).

(** [response.json()] *)
Definition json_of (r : Response) : result json :=
  match payload r with
  | Parsed data => Return data
  | Malformed e => Throw e
  end.

(** The outcome of [await fetch(...)]: the promise rejects (network failure)
    or resolves with a response, whatever its status. *)
Inductive fetched : Type :=
| Rejected (e : exn)
| Resolved (r : Response).

Definition fetch (o : fetched) : result Response :=
  match o with
  | Rejected e => Throw e
  | Resolved r => Return r
  end.

(** [`HTTP error! status: ${response.status}`] *)
Definition http_error (r : Response) : exn :=
  Error ("HTTP error! status: " +:+ Number_toString (of_Z (status r))).

End JS.

Export JS.

(** [x ← r; k] runs [r] and, unless it throws, continues with [k]. *)
#[export] Instance result_bind : MBind result := fun A B f r => bind r f.
#[export] Instance result_ret : MRet result := @Return.

(** ** [BorosClient] (src/lib/boros/client.ts)

    Every method takes the outcome of its one [fetch] call.  The clock
    ([Date.now()]) and the random source ([Math.random()]) are inputs too:
    [rnd n] is what the [n]-th call of [Math.random()] returns.  Timestamps
    are integers (milliseconds), on which binary64 is exact below 2^53. *)

Module BorosClient.

Record YieldUnit : Type := mkYieldUnit {
  id : string;
  asset : string;
  maturity : Z;          (* a [Date], as milliseconds since the epoch *)
  currentRate : number;
  impliedRate : number;
  price : number;
  volume : number
}.

(** What [getYieldUnits] resolves to: the [yieldUnits] field of the body,
    taken as it comes, or a list of [YieldUnit] objects. *)
Inductive YieldUnits : Type :=
| Listed (v : json)
| Units (l : list YieldUnit).

Definition msPerDay : Z := 24 * 60 * 60 * 1000.

(** [getMockYieldUnits()]; [t1] and [t2] are its two readings of the clock. *)
Definition getMockYieldUnits (t1 t2 : Z) : list YieldUnit :=
  [ {| id := "yu-btc-001"; asset := "BTC";
       maturity := t1 + 30 * 24 * 60 * 60 * 1000;
       currentRate := Fin 1 4; impliedRate := Fin 12 5;
       price := Fin 98 2; volume := Fin 1500000 0 |};
    {| id := "yu-eth-001"; asset := "ETH";
       maturity := t2 + 30 * 24 * 60 * 60 * 1000;
       currentRate := Fin 5 5; impliedRate := Fin 8 5;
       price := Fin 99 2; volume := Fin 2500000 0 |} ].

Definition getYieldUnits (t1 t2 : Z) (o : fetched) : result YieldUnits :=
  try_catch
    (response ← fetch o;
     if negb (ok response) then Throw (http_error response)
     else
       data ← json_of response;
       yieldUnits ← get data "yieldUnits";
       mret (Listed (or_else yieldUnits (JArray []))))
    (fun error => Return (Units (getMockYieldUnits t1 t2))).

(** The object literal returned by the [catch] clause of [getFundingRates]. *)
Definition mockFundingRates : json :=
  JObject (<["BTC" := JNumber (Fin 1 4)]> (<["ETH" := JNumber (Fin 5 5)]> ∅)).

Definition getFundingRates (o : fetched) : result json :=
  try_catch
    (response ← fetch o;
     if negb (ok response) then Throw (http_error response)
     else
       data ← json_of response;
       rates ← get data "rates";
       mret (or_else rates (JObject ∅)))
    (fun error => Return mockFundingRates).

Definition getPositions (userAddress : string) (o : fetched) : result json :=
  try_catch
    (response ← fetch o;
     if negb (ok response) then Throw (http_error response)
     else
       data ← json_of response;
       positions ← get data "positions";
       mret (or_else positions (JArray [])))
    (fun error => Return (JArray [])).

Inductive Side : Type := LONG | SHORT.
Inductive MarginType : Type := CROSS | ISOLATED.

Record TradeParams : Type := mkTradeParams {
  trade_asset : string;
  side : Side;
  size : number;
  marginType : MarginType;
  margin : option number
}.

(** [{ success, tradeId?, error? }]; an absent field is [None], and so is a
    [tradeId] that the body does not have. *)
Record TradeResult : Type := mkTradeResult {
  success : bool;
  tradeId : option json;
  error : option string
}.

(** [params] goes into the body of the request and nowhere else. *)
Definition placeTrade (params : TradeParams) (o : fetched) : result TradeResult :=
  try_catch
    (response ← fetch o;
     if negb (ok response) then Throw (http_error response)
     else
       data ← json_of response;
       id ← get data "tradeId";
       mret {| success := true; tradeId := id; error := None |})
    (fun e => Return {| success := false; tradeId := None; error := Some (message e) |}).

Record RatePoint : Type := mkRatePoint { timestamp : Z; rate : double }.

(** [asset === 'BTC' ? 0.0001 : 0.00005] *)
Definition baseRate (asset : string) : double :=
  if String.eqb asset "BTC"
  then Double.of_number (Fin 1 4) else Double.of_number (Fin 5 5).

(** [baseRate + (Math.random() - 0.5) * 0.00005] *)
Definition mockRate (asset : string) (random : double) : double :=
  Double.add (baseRate asset)
    (Double.mul (Double.sub random (Double.of_number (Fin 5 1)))
       (Double.of_number (Fin 5 5))).

(** The loop [for (let i = days; i >= 0; i--)] of [getMockHistoricalRates],
    entered with counter [i], after [n] calls of [Math.random()], with the
    points pushed so far in [data]. *)
Equations? mockLoop (asset : string) (now : Z) (rnd : nat -> double)
    (i : Z) (n : nat) (data : list RatePoint) : list RatePoint
    by wf (Z.to_nat (i + 1)) lt :=
  mockLoop asset now rnd i n data with Z_le_gt_dec 0 i => {
    | left _ :=
        mockLoop asset now rnd (i - 1) (S n)
          (data ++ [ {| timestamp := now - i * msPerDay;
                        rate := mockRate asset (rnd n) |} ]);
    | right _ := data }.
Proof. lia. Qed.

Definition getMockHistoricalRates (asset : string) (days : Z)
    (now : Z) (rnd : nat -> double) : list RatePoint :=
  mockLoop asset now rnd days 0 [].

(** A point as the plain object [{ timestamp, rate }]. *)
Definition point_json (p : RatePoint) : json :=
  JObject (<["timestamp" := JNumber (of_Z (timestamp p))]>
           (<["rate" := JNumber (Double.to_number (rate p))]> ∅)).

Definition getHistoricalRates (asset : string) (days : Z)
    (now : Z) (rnd : nat -> double) (o : fetched) : result json :=
  try_catch
    (response ← fetch o;
     if negb (ok response) then Throw (http_error response)
     else
       data ← json_of response;
       rates ← get data "rates";
       mret (or_else rates (JArray [])))
    (fun error =>
       Return (JArray (point_json <$> getMockHistoricalRates asset days now rnd))).

End BorosClient.

(** ** [HyperliquidClient]: the REST methods *)

Module HyperliquidClient.

Definition zero : number := Fin 0 0.

Definition getCurrentPrice (o : fetched) : result number :=
  try_catch
    (response ← fetch o;
     if negb (ok response) then Throw (http_error response)
     else
       data ← json_of response;
       hypePrice ← get data "HYPE";
       if negb (truthy_opt hypePrice)
       then Throw (Error "HYPE price not found in response")
       else mret (parseFloat_any hypePrice))
    (fun error => Throw error).

(** [prices[symbol] = x] on the plain object [prices = {}].  The name
    [__proto__] is not an own property: the assignment reaches the setter
    that [Object.prototype] defines, which ignores a number and leaves the
    object as it is.  Every other name becomes (or stays) an own property. *)
Definition assign (prices : gmap string number) (symbol : string) (x : number)
    : gmap string number :=
  if String.eqb symbol "__proto__" then prices else <[symbol := x]> prices.

(** The body of the loop over [Object.entries(data)]. *)
Definition record_price (prices : gmap string number) (entry : string * json)
    : gmap string number :=
  match entry.2 with
  | JString price => assign prices entry.1 (parseFloat price)
  | _ => prices
  end.

Definition getAllMidPrices (o : fetched) : result (gmap string number) :=
  try_catch
    (response ← fetch o;
     if negb (ok response) then Throw (http_error response)
     else
       data ← json_of response;
       entries ← Object_entries data;
       mret (foldl record_price ∅ entries))
    (fun error => Throw error).

Record OrderBook : Type := mkOrderBook {
  bids : list (number * number);   (* [price, size] *)
  asks : list (number * number);
  book_timestamp : Z
}.

(** [level => [parseFloat(level.px), parseFloat(level.sz)]] *)
Definition parse_level (level : json) : result (number * number) :=
  px ← get level "px";
  sz ← get level "sz";
  mret (parseFloat_any px, parseFloat_any sz).

(** [data.levels?.map(level => ...)]: [None] when the chain stops at a
    [levels] that is [undefined] or [null]. *)
Definition levels_map (data : json) : result (option (list (number * number))) :=
  levels ← get data "levels";
  match levels with
  | None | Some JNull => mret None
  | Some (JArray l) => parsed ← mapM parse_level l; mret (Some parsed)
  | Some _ => Throw (TypeError_not_function "data.levels?.map")
  end.

Definition getOrderBook (coin : string) (now : Z) (o : fetched) : result OrderBook :=
  try_catch
    (response ← fetch o;
     if negb (ok response) then Throw (http_error response)
     else
       data ← json_of response;
       b ← levels_map data;
       a ← levels_map data;
       mret {| bids :=
                 default []
                   (List.filter (fun level => gtb level.2 zero) <$> b);
               asks :=
                 default []
                   ((fun l =>
                       List.map (fun level => (level.1, abs level.2))
                         (List.filter (fun level => ltb level.2 zero) l)) <$> a);
               book_timestamp := now |})
    (fun error => Throw error).

Definition getMarketMeta (o : fetched) : result json :=
  try_catch
    (response ← fetch o;
     if negb (ok response) then Throw (http_error response)
     else
       data ← json_of response;
       universe ← get data "universe";
       mret (or_else universe (JArray [])))
    (fun error => Throw error).

(** *** The WebSocket subscription

    The client owns one field, [wsConnection].  Around it live the sockets
    it has constructed and the timers it has set; the transport and the
    event loop drive them through events.  A socket keeps, besides its
    [readyState], the callback its [onmessage] and [onclose] handlers
    closed over.  [created] and [closed] only observe the clock: no method
    reads them. *)

Inductive ReadyState : Type := CONNECTING | OPEN | CLOSING | CLOSED.

#[export] Instance ReadyState_eq_dec : EqDecision ReadyState.
Proof. solve_decision. Defined.

(** The function handed to [subscribeToUpdates], known by its identity. *)
Definition callback : Type := nat.

Record WebSocket : Type := mkWebSocket {
  readyState : ReadyState;
  listener : callback;
  created : Z;
  closed : option Z
}.

(** A pending [setTimeout(() => this.subscribeToUpdates(callback), 5000)]. *)
Record Timer : Type := mkTimer { due : Z; retry : callback }.

Record MarketData : Type := mkMarketData {
  symbol : string;
  price : number;
  volume24h : number;
  change24h : number;
  high24h : number;
  low24h : number;
  timestamp : Z
}.

(** What the client does to the outside: a subscription message sent on a
    socket, a call of a callback. *)
Inductive effect : Type :=
| Sent (socket : nat)
| Called (cb : callback) (data : MarketData).

Record World : Type := mkWorld {
  wsConnection : option nat;   (* [null], or the index of a socket *)
  sockets : list WebSocket;    (* every socket constructed, oldest first *)
  timers : list Timer;         (* the timers that have not fired yet *)
  clock : Z;                   (* [Date.now()] *)
  url_ok : bool;               (* does [new WebSocket(WS_URL)] succeed? *)
  effects : list effect
}.

Definition fresh (url : bool) (now : Z) : World :=
  {| wsConnection := None; sockets := []; timers := []; clock := now;
     url_ok := url; effects := [] |}.

Definition reconnectDelay : Z := 5000.

(** [subscribeToUpdates(callback)].  The constructor throws on a URL it
    does not accept; the [catch] clause logs, and nothing has changed. *)
Definition subscribeToUpdates (cb : callback) (w : World) : World :=
  if url_ok w then
    {| wsConnection := Some (length (sockets w));
       sockets := sockets w ++ [mkWebSocket CONNECTING cb (clock w) None];
       timers := timers w; clock := clock w; url_ok := url_ok w;
       effects := effects w |}
  else w.

(** [socket.close()] *)
Definition close (ws : WebSocket) : WebSocket :=
  match readyState ws with
  | CONNECTING | OPEN =>
      mkWebSocket CLOSING (listener ws) (created ws) (closed ws)
  | CLOSING | CLOSED => ws
  end.

(** [disconnect()] *)
Definition disconnect (w : World) : World :=
  match wsConnection w with
  | Some i =>
      {| wsConnection := None;
         sockets := alter close i (sockets w);
         timers := timers w; clock := clock w; url_ok := url_ok w;
         effects := effects w |}
  | None => w
  end.

(** [isConnected()] *)
Definition isConnected (w : World) : bool :=
  match wsConnection w with
  | Some i =>
      match sockets w !! i with
      | Some ws => bool_decide (readyState ws = OPEN)
      | None => false
      end
  | None => false
  end.

(** The [onopen] handler of socket [i], run once the socket is open: it
    sends on whatever [this.wsConnection] is by then.  [send] throws on a
    socket that is still connecting and drops the data on a closing one. *)
Definition onopen (i : nat) (w : World) : World :=
  let opened :=
    alter (fun ws => mkWebSocket OPEN (listener ws) (created ws) (closed ws))
      i (sockets w) in
  {| wsConnection := wsConnection w; sockets := opened;
     timers := timers w; clock := clock w; url_ok := url_ok w;
     effects :=
       match wsConnection w with
       | Some j =>
           match opened !! j with
           | Some ws =>
               if bool_decide (readyState ws = OPEN)
               then effects w ++ [Sent j] else effects w
           | None => effects w
           end
       | None => effects w
       end |}.

(** The calls made by the [onmessage] handler for the parsed [message]; the
    callback itself is taken not to throw. *)
Definition ticks (cb : callback) (now : Z) (message : json) : result (list effect) :=
  channel ← get message "channel";
  data ← get message "data";
  match channel, data with
  | Some (JString c), Some d =>
      if String.eqb c "allMids" && truthy d then
        entries ← Object_entries d;
        mret (omap (fun entry : string * json =>
                match entry.2 with
                | JString price =>
                    Some (Called cb
                      {| symbol := entry.1; price := parseFloat price;
                         volume24h := zero; change24h := zero;
                         high24h := zero; low24h := zero;
                         timestamp := now |})
                | _ => None
                end) entries)
      else mret []
  | _, _ => mret []
  end.

(** The [onmessage] handler of socket [i]; [data] is [JSON.parse(event.data)].
    Whatever is thrown is caught and logged. *)
Definition onmessage (i : nat) (data : body) (w : World) : World :=
  match sockets w !! i, data with
  | Some ws, Parsed message =>
      match ticks (listener ws) (clock w) message with
      | Return calls =>
          {| wsConnection := wsConnection w; sockets := sockets w;
             timers := timers w; clock := clock w; url_ok := url_ok w;
             effects := effects w ++ calls |}
      | Throw _ => w
      end
  | _, _ => w
  end.

(** The [onclose] handler of socket [i], run once the socket is closed. *)
Definition onclose (i : nat) (w : World) : World :=
  match sockets w !! i with
  | Some ws =>
      {| wsConnection := wsConnection w;
         sockets :=
           <[i := mkWebSocket CLOSED (listener ws) (created ws) (Some (clock w))]>
             (sockets w);
         timers := timers w ++ [mkTimer (clock w + reconnectDelay) (listener ws)];
         clock := clock w; url_ok := url_ok w; effects := effects w |}
  | None => w
  end.

(** The function given to [setTimeout] runs: timer [k] is spent. *)
Definition ontimeout (k : nat) (w : World) : World :=
  match timers w !! k with
  | Some t =>
      subscribeToUpdates (retry t)
        {| wsConnection := wsConnection w; sockets := sockets w;
           timers := delete k (timers w); clock := clock w;
           url_ok := url_ok w; effects := effects w |}
  | None => w
  end.

(** Time passes. *)
Definition elapse (dt : Z) (w : World) : World :=
  {| wsConnection := wsConnection w; sockets := sockets w;
     timers := timers w; clock := clock w + dt;
     url_ok := url_ok w; effects := effects w |}.

(** What can happen to a client: its two methods are called, the transport
    reports on a socket, a timer fires, time passes. *)
Inductive event : Type :=
| Subscribe (cb : callback)
| Disconnect
| Open (i : nat)
| Message (i : nat) (data : body)
| Fault (i : nat)
| Close (i : nat)
| Timeout (k : nat)
| Elapse (dt : Z).

Definition state_of (w : World) (i : nat) : option ReadyState :=
  readyState <$> sockets w !! i.

(** One event; [None] when the event cannot happen in [w]: a socket opens
    once, while connecting; it delivers messages while open; it closes once;
    a timer fires no earlier than it is due; time does not go back. *)
Definition step (w : World) (ev : event) : option World :=
  match ev with
  | Subscribe cb => Some (subscribeToUpdates cb w)
  | Disconnect => Some (disconnect w)
  | Open i =>
      match state_of w i with
      | Some CONNECTING => Some (onopen i w)
      | _ => None
      end
  | Message i data =>
      match state_of w i with
      | Some OPEN => Some (onmessage i data w)
      | _ => None
      end
  | Fault i =>
      match state_of w i with
      | Some CLOSED | None => None
      | Some _ => Some w
      end
  | Close i =>
      match state_of w i with
      | Some CLOSED | None => None
      | Some _ => Some (onclose i w)
      end
  | Timeout k =>
      match timers w !! k with
      | Some t => if due t <=? clock w then Some (ontimeout k w) else None
      | None => None
      end
  | Elapse dt =>
      if 0 <=? dt then Some (elapse dt w) else None
  end.

Fixpoint run (w : World) (evs : list event) : option World :=
  match evs with
  | [] => Some w
  | ev :: rest =>
      match step w ev with
      | Some w' => run w' rest
      | None => None
      end
  end.

(** Sockets that are not closed. *)
Definition live (ws : WebSocket) : bool :=
  match readyState ws with
  | CLOSED => false
  | _ => true
  end.

Definition live_count (w : World) : nat :=
  length (List.filter live (sockets w)).

Definition is_subscribe (ev : event) : bool :=
  match ev with Subscribe _ => true | _ => false end.

End HyperliquidClient.

Import BorosClient.
Import HyperliquidClient.

(** ** Vocabulary of the specification, and the invariants of the proofs *)

Module Spec.

(** The request behind a REST method fails: the network rejects it, the
    status is not a success, or the body does not parse. *)
Definition request_fails (o : fetched) : Prop :=
  match o with
  | Rejected _ => True
  | Resolved r => ok r = false \/ exists e, payload r = Malformed e
  end.

(** A response with a success status whose body parses to [data]. *)
Definition success_with (o : fetched) (data : json) : Prop :=
  exists st, o = Resolved (mkResponse st (Parsed data)) /\ 200 <= st <= 299.

(** The field [f] of a parsed body, when the body is an object that has it. *)
Definition field (data : json) (f : string) : option json :=
  match data with
  | JObject m => m !! f
  | _ => None
  end.

Definition lacks (data : json) (f : string) : Prop := field data f = None.

(** A raw level of the order book, as the venue sends it: [{px, sz}], two
    strings, the side encoded in the sign of the size. *)
Record RawLevel : Type := mkRawLevel { px : string; sz : string }.

Definition level_json (l : RawLevel) : json :=
  JObject (<["px" := JString (px l)]> (<["sz" := JString (sz l)]> ∅)).

Definition positive_size (l : RawLevel) : bool :=
  Num.ltb (Fin 0 0) (parseFloat (sz l)).
Definition negative_size (l : RawLevel) : bool :=
  Num.ltb (parseFloat (sz l)) (Fin 0 0).

(** Bids: the levels of positive size, as parsed (price, size) pairs. *)
Definition spec_bids (ls : list RawLevel) : list (number * number) :=
  List.map (fun l => (parseFloat (px l), parseFloat (sz l)))
    (List.filter positive_size ls).

(** Asks: the levels of negative size, the sign of the size flipped. *)
Definition spec_asks (ls : list RawLevel) : list (number * number) :=
  List.map (fun l => (parseFloat (px l), neg (parseFloat (sz l))))
    (List.filter negative_size ls).

(** The price recorded for a field of the body: strings are parsed, the
    other values are skipped. *)
Definition price_of (v : json) : option number :=
  match v with
  | JString s => Some (parseFloat s)
  | _ => None
  end.

(** The price recorded under the name [k] for the value [v]. *)
Definition price_at (k : string) (v : json) : option number :=
  if String.eqb k "__proto__" then None else price_of v.

(** [Math.random()] returns a number in the interval [0, 1). *)
Definition in_unit (x : double) : Prop :=
  match x with
  | DFin m e => (0 <= Double.val m e)%Q /\ (Double.val m e < 1)%Q
  | _ => False
  end.

(** The rational value of the base rate: 0.0001 for BTC, 0.00005 otherwise. *)
Definition base_Q (asset : string) : Q :=
  if String.eqb asset "BTC" then 1 # 10000 else 5 # 100000.

(** The point pushed by the iteration that runs with counter [i] after [n]
    calls of the random source. *)
Definition mock_point (asset : string) (now : Z) (rnd : nat -> double)
    (i : Z) (n : nat) : RatePoint :=
  mkRatePoint (now - i * msPerDay) (mockRate asset (rnd n)).

(** A pending timer [t] was set when a socket of [w] closed: it is due
    [reconnectDelay] after that close and retries with that socket's callback. *)
Definition timer_of_close (w : World) (t : Timer) : Prop :=
  exists j ws c,
    sockets w !! j = Some ws /\ readyState ws = CLOSED /\ closed ws = Some c /\
    due t = c + reconnectDelay /\ retry t = listener ws.

(** What holds in every state a client can reach. *)
Definition wf (w : World) : Prop :=
  ((sockets w <> [] \/ timers w <> []) -> url_ok w = true) /\
  (forall t, t ∈ timers w -> timer_of_close w t).

(** Once a socket exists, a live socket or a pending timer exists. *)
Definition sustained (w : World) : Prop :=
  sockets w <> [] -> (0 < live_count w + length (timers w))%nat.

(** Each socket but the last is closed, and was closed at least
    [reconnectDelay] before the next one was constructed. *)
Definition chain (w : World) : Prop :=
  forall i a b, sockets w !! i = Some a -> sockets w !! S i = Some b ->
    exists c, readyState a = CLOSED /\ closed a = Some c /\
      c + reconnectDelay <= created b.

(** A pending timer is the one set by the close of the last socket. *)
Definition timers_of_last (w : World) : Prop :=
  forall t, t ∈ timers w ->
    exists a c, last (sockets w) = Some a /\ readyState a = CLOSED /\
      closed a = Some c /\ due t = c + reconnectDelay.

(** What holds as long as [subscribeToUpdates] was called once from outside. *)
Definition single (w : World) : Prop :=
  (live_count w + length (timers w) <= 1)%nat /\ chain w /\ timers_of_last w.

(** Two sockets related by an event that neither closes nor constructs. *)
Definition same_but_state (a a' : WebSocket) : Prop :=
  created a' = created a /\ closed a' = closed a /\
  (readyState a = CLOSED -> a' = a).

(** The events that neither construct nor close a socket. *)
Definition quiet (ev : event) : bool :=
  match ev with
  | Subscribe _ | Close _ | Timeout _ => false
  | _ => true
  end.

(** The two sides of a book are what the two filters keep of the parsed
    levels. *)
Definition book_of (now : Z) (parsed : option (list (number * number))) : OrderBook :=
  {| bids := default [] (List.filter (fun level => gtb level.2 zero) <$> parsed);
     asks :=
       default []
         ((fun l => List.map (fun level : number * number => (level.1, abs level.2))
                      (List.filter (fun level => Num.ltb level.2 zero) l))
            <$> parsed);
     book_timestamp := now |}.

(** [wsConnection], when set, refers to the socket constructed last; when
    cleared, that socket has been told to close. *)
Definition ref_ok (w : World) : Prop :=
  (forall i, wsConnection w = Some i -> S i = length (sockets w)) /\
  (wsConnection w = None ->
   forall a, last (sockets w) = Some a ->
     readyState a = CLOSING \/ readyState a = CLOSED).

(** An adapter whose WebSocket URL the constructor rejects. *)
Definition inert (w : World) : Prop :=
  url_ok w = false /\ wsConnection w = None /\ sockets w = [] /\
  timers w = [] /\ effects w = [].

Definition is_close (ev : event) : bool :=
  match ev with Close _ => true | _ => false end.

Definition is_timeout (ev : event) : bool :=
  match ev with Timeout _ => true | _ => false end.

(** The callbacks handed to [subscribeToUpdates] from outside. *)
Definition subscribed (evs : list event) : list callback :=
  omap (fun ev => match ev with Subscribe cb => Some cb | _ => None end) evs.

(** The [MarketData] built for the entry [symbol: price] of a message
    received at [now]. *)
Definition tick (symbol price : string) (now : Z) : MarketData :=
  {| symbol := symbol; price := parseFloat price;
     volume24h := zero; change24h := zero; high24h := zero; low24h := zero;
     timestamp := now |}.

(** Everything the adapter holds or has called comes from [P], a set of
    callbacks; what it has called was stamped no later than its clock. *)
Definition known (P : callback -> Prop) (since : Z) (w : World) : Prop :=
  since <= clock w /\
  (forall ws, ws ∈ sockets w -> P (listener ws)) /\
  (forall t, t ∈ timers w -> P (retry t)) /\
  (forall e, e ∈ effects w ->
     match e with
     | Sent j => (j < length (sockets w))%nat
     | Called cb d =>
         P cb /\ since <= timestamp d <= clock w /\
         exists k s, d = tick k s (timestamp d)
     end).

End Spec.

Import Spec.

(** * Properties *)

(** ** Shared lemmas on requests *)

Lemma ok_status st b : ok (mkResponse st b) = true <-> 200 <= st <= 299.
Proof. unfold ok; simpl. rewrite andb_true_iff, !Z.leb_le. tauto. Qed.

Lemma success_with_ok o data :
  success_with o data ->
  exists r, o = Resolved r /\ ok r = true /\ payload r = Parsed data.
Proof.
  intros (st & -> & Hst). eexists; split; [reflexivity|].
  split; [by apply ok_status | reflexivity].
Qed.

Lemma get_not_null data f : data <> JNull -> get data f = Return (field data f).
Proof. by destruct data. Qed.

Ltac unfold_methods :=
  unfold getYieldUnits, getFundingRates, getPositions, getHistoricalRates,
    placeTrade, getCurrentPrice, getAllMidPrices, getOrderBook, getMarketMeta.

(** Runs a method on a response with a success status and a parsed body. *)
Ltac on_success H :=
  apply success_with_ok in H as (? & -> & Hok & Hbody);
  unfold_methods; cbn [fetch mbind result_bind bind];
  rewrite Hok; cbn [negb]; unfold json_of; rewrite Hbody;
  cbn [mbind result_bind bind].

(** Runs a method on a request that fails. *)
Ltac on_failure o H :=
  unfold_methods;
  destruct o as [? | [st [data | ?]]]; cbn [fetch mbind result_bind bind];
  [ | destruct H as [H | [? H]]; [ rewrite H | discriminate H ]
    | destruct (ok _); cbn [negb json_of payload mbind result_bind bind] ];
  cbn [negb try_catch].

(** ** The rate adapter ([BorosClient]) *)

(** C4.  When the request of [getFundingRates] fails (the network rejects
    it, the status is not a success, or the body does not parse), the method
    resolves to exactly the mapping [{BTC: 0.0001, ETH: 0.00005}]; and
    whatever the outcome of the request, it resolves: no error reaches the
    caller. *)
Theorem getFundingRates_fallback (o : fetched) :
  returns (getFundingRates o) /\
  (request_fails o ->
   getFundingRates o =
     Return (JObject (<["BTC" := JNumber (Fin 1 4)]>
                      (<["ETH" := JNumber (Fin 5 5)]> ∅))) /\
   to_Q (Fin 1 4) == 1 # 10000 /\ to_Q (Fin 5 5) == 5 # 100000).
Proof.
  split.
  - unfold getFundingRates.
    destruct o as [e | [st [data | e]]]; cbn; [done | | ].
    + destruct (ok _); cbn; [ destruct data; cbn; done | done ].
    + destruct (ok _); cbn; done.
  - intros H. split; [ | split; reflexivity ].
    on_failure o H; reflexivity.
Qed.

Lemma getFundingRates_fallback_witness :
  getFundingRates (Resolved (mkResponse 503 (Parsed JNull))) =
    Return (JObject (<["BTC" := JNumber (Fin 1 4)]>
                     (<["ETH" := JNumber (Fin 5 5)]> ∅))).
Proof.
  apply (getFundingRates_fallback (Resolved (mkResponse 503 (Parsed JNull)))).
  left. reflexivity.
Defined.

(** C7, as stated, fails when the request succeeds with the body [null]:
    the status is 200 and the body parses, so the request does not fail, yet
    reading [tradeId] of [null] throws inside the [try] and the result is
    [{success: false, error}], not [success = true]. *)
Lemma placeTrade_null_body :
  success_with (Resolved (mkResponse 200 (Parsed JNull))) JNull /\
  ~ request_fails (Resolved (mkResponse 200 (Parsed JNull))) /\
  (forall params,
     placeTrade params (Resolved (mkResponse 200 (Parsed JNull)))
       = Return {| success := false; tradeId := None;
                   error := Some "Cannot read properties of null (reading 'tradeId')" |}).
Proof.
  split; [ | split ].
  - exists 200. split; [reflexivity | lia].
  - intros [H | [e H]]; discriminate H.
  - intros params. reflexivity.
Qed.

(** C7, amended.  [placeTrade] never raises: for every [params] and every
    outcome of the request it resolves to a result value.  When the request
    fails, the value is [{success: false, error}] with the message of the
    failure: that of the rejection of [fetch], "HTTP error! status: <status>"
    for a status outside 200-299, that of the parser's error for a body that
    does not parse.  When the response has a success status and its body
    parses to a value other than [null], the value is
    [{success: true, tradeId}] with the [tradeId] of the body.  When the body
    is [null], the value is [{success: false, error}] with the message of the
    [TypeError] of the read.  These are all the cases: [success] is true for
    no other outcome. *)
Theorem placeTrade_never_raises (params : TradeParams) (o : fetched) :
  returns (placeTrade params o) /\
  (request_fails o ->
     exists msg,
       placeTrade params o =
         Return {| success := false; tradeId := None; error := Some msg |}) /\
  (forall e, o = Rejected e ->
     placeTrade params o =
       Return {| success := false; tradeId := None; error := Some (message e) |}) /\
  (forall r, o = Resolved r -> ok r = false ->
     placeTrade params o =
       Return {| success := false; tradeId := None;
                 error := Some ("HTTP error! status: "
                                  +:+ Number_toString (of_Z (status r))) |}) /\
  (forall r e, o = Resolved r -> ok r = true -> payload r = Malformed e ->
     placeTrade params o =
       Return {| success := false; tradeId := None; error := Some (message e) |}) /\
  (success_with o JNull ->
     placeTrade params o =
       Return {| success := false; tradeId := None;
                 error := Some (message (TypeError_null "tradeId")) |}) /\
  (forall data, success_with o data -> data <> JNull ->
     placeTrade params o =
       Return {| success := true; tradeId := field data "tradeId"; error := None |}) /\
  (forall res, placeTrade params o = Return res ->
     if success res
     then exists data, success_with o data /\ data <> JNull /\
            tradeId res = field data "tradeId" /\ error res = None
     else (request_fails o \/ success_with o JNull) /\
            tradeId res = None /\ exists msg, error res = Some msg).
Proof.
  split; [ | split; [ | split; [ | split; [ | split; [ | split; [ | split ] ] ] ] ] ].
  - unfold placeTrade.
    destruct o as [e | [st [data | e]]]; cbn; [done | | ].
    + destruct (ok _); cbn; [ destruct data; cbn; done | done ].
    + destruct (ok _); cbn; done.
  - intros H. on_failure o H; eauto.
  - by intros e ->.
  - intros r -> Hr. unfold placeTrade; cbn. by rewrite Hr.
  - intros r e -> Hr Hb. unfold placeTrade, json_of; cbn. by rewrite Hr, Hb.
  - intros H. on_success H. reflexivity.
  - intros data H Hnn. on_success H. by rewrite get_not_null.
  - intros res. unfold placeTrade.
    destruct o as [e | [st [data | e]]]; cbn.
    + intros [= <-]; cbn. split; [by left | eauto].
    + destruct (ok _) eqn:Hst; cbn.
      * apply ok_status in Hst.
        assert (Hs : success_with (Resolved (mkResponse st (Parsed data))) data)
          by (exists st; done).
        destruct data; cbn; intros [= <-]; cbn;
          try (eexists; split; [exact Hs | done]).
        split; [by right | eauto].
      * intros [= <-]; cbn. split; [left; by left | eauto].
    + destruct (ok _) eqn:Hst; cbn; intros [= <-]; cbn.
      * split; [left; right; by eexists | eauto].
      * split; [left; by left | eauto].
Qed.

(** C10, as stated, fails on the body [null]: it parses, it has no [rates]
    field, and [getFundingRates] resolves to the fallback mapping, not to the
    empty one. *)
Lemma getFundingRates_null_body :
  success_with (Resolved (mkResponse 200 (Parsed JNull))) JNull /\
  lacks JNull "rates" /\
  getFundingRates (Resolved (mkResponse 200 (Parsed JNull)))
    = Return mockFundingRates /\
  getFundingRates (Resolved (mkResponse 200 (Parsed JNull)))
    <> Return (JObject ∅).
Proof.
  split; [ | split; [ | split ] ].
  - exists 200. split; [reflexivity | lia].
  - reflexivity.
  - reflexivity.
  - vm_compute. discriminate.
Qed.

(** C10, amended.  The outcome of a request is of one of three kinds: the
    request fails (the network rejects it, the status is outside 200-299, or
    the body does not parse); it succeeds with the body [null]; it succeeds
    with a body other than [null].  In the first two, each of the four read
    operations resolves to its fallback: the two mock yield units, the
    mapping [{BTC: 0.0001, ETH: 0.00005}], the empty sequence of positions,
    the synthetic history.  In the third, each resolves to the field it
    reads or, when that field is absent (or falsy), to the empty sequence or
    mapping, whatever the fallback is. *)
Theorem missing_field_is_empty (o : fetched) :
  (request_fails o \/ success_with o JNull \/
     exists data, success_with o data /\ data <> JNull) /\
  (forall data, success_with o data -> ~ request_fails o) /\
  (request_fails o \/ success_with o JNull ->
     (forall t1 t2,
        getYieldUnits t1 t2 o = Return (Units (getMockYieldUnits t1 t2))) /\
     getFundingRates o = Return mockFundingRates /\
     (forall user, getPositions user o = Return (JArray [])) /\
     (forall asset days now rnd,
        getHistoricalRates asset days now rnd o =
          Return (JArray (point_json <$> getMockHistoricalRates asset days now rnd)))) /\
  (forall data, success_with o data -> data <> JNull ->
     (forall t1 t2,
        getYieldUnits t1 t2 o
          = Return (Listed (or_else (field data "yieldUnits") (JArray [])))) /\
     getFundingRates o = Return (or_else (field data "rates") (JObject ∅)) /\
     (forall user,
        getPositions user o = Return (or_else (field data "positions") (JArray []))) /\
     (forall asset days now rnd,
        getHistoricalRates asset days now rnd o
          = Return (or_else (field data "rates") (JArray []))) /\
     (lacks data "yieldUnits" ->
        forall t1 t2, getYieldUnits t1 t2 o = Return (Listed (JArray []))) /\
     (lacks data "rates" -> getFundingRates o = Return (JObject ∅)) /\
     (lacks data "positions" ->
        forall user, getPositions user o = Return (JArray [])) /\
     (lacks data "rates" ->
        forall asset days now rnd,
          getHistoricalRates asset days now rnd o = Return (JArray []))).
Proof.
  split; [ | split; [ | split ] ].
  - destruct o as [e | [st [data | e]]]; [by left | | left; right; by eexists ].
    destruct (ok (mkResponse st (Parsed data))) eqn:Hst; [ | left; by left ].
    apply ok_status in Hst. right.
    assert (Hs : success_with (Resolved (mkResponse st (Parsed data))) data)
      by (exists st; done).
    destruct data; try (right; eexists; split; [exact Hs | done]). by left.
  - intros data (r & -> & Hr & Hb)%success_with_ok [H | [e H]]; congruence.
  - intros [Hfail | Hnull].
    + repeat split; intros; on_failure o Hfail; reflexivity.
    + repeat split; intros; pose proof Hnull as H; on_success H; reflexivity.
  - intros data Hsuccess Hdata.
    assert (Hy : forall t1 t2, getYieldUnits t1 t2 o
              = Return (Listed (or_else (field data "yieldUnits") (JArray [])))).
    { intros. pose proof Hsuccess as H. on_success H. by rewrite get_not_null. }
    assert (Hf : getFundingRates o
              = Return (or_else (field data "rates") (JObject ∅))).
    { pose proof Hsuccess as H. on_success H. by rewrite get_not_null. }
    assert (Hp : forall user, getPositions user o
              = Return (or_else (field data "positions") (JArray []))).
    { intros. pose proof Hsuccess as H. on_success H. by rewrite get_not_null. }
    assert (Hh : forall asset days now rnd, getHistoricalRates asset days now rnd o
              = Return (or_else (field data "rates") (JArray []))).
    { intros. pose proof Hsuccess as H. on_success H. by rewrite get_not_null. }
    repeat split; try done; unfold lacks; intros Hl; intros.
    + by rewrite Hy, Hl.
    + by rewrite Hf, Hl.
    + by rewrite Hp, Hl.
    + by rewrite Hh, Hl.
Qed.

Lemma missing_field_is_empty_witness :
  getFundingRates (Resolved (mkResponse 200 (Parsed (JObject ∅))))
    = Return (JObject ∅) /\
  getFundingRates (Resolved (mkResponse 503 (Parsed (JObject ∅))))
    = Return mockFundingRates.
Proof.
  split.
  - assert (Hs : success_with (Resolved (mkResponse 200 (Parsed (JObject ∅))))
                   (JObject ∅)).
    { exists 200. split; [reflexivity | lia]. }
    assert (Hn : JObject ∅ <> JNull) by discriminate.
    apply (proj2 (proj2 (proj2 (missing_field_is_empty _))) _ Hs Hn). reflexivity.
  - apply (proj1 (proj2 (proj2 (missing_field_is_empty _)))).
    left. left. reflexivity.
Defined.

(** ** The venue adapter ([HyperliquidClient]): REST methods *)

(** C6, as stated, fails: the client has no [UpstreamError] and no
    [NotFoundError].  On status 500 it throws a plain [Error], and so it
    does when the body has no [HYPE] field. *)
Lemma getCurrentPrice_errors_are_plain :
  getCurrentPrice (Resolved (mkResponse 500 (Parsed (JObject ∅))))
    = Throw (mkExn "Error" "HTTP error! status: 500") /\
  getCurrentPrice (Resolved (mkResponse 200 (Parsed (JObject ∅))))
    = Throw (mkExn "Error" "HYPE price not found in response") /\
  ~ (exists e,
       getCurrentPrice (Resolved (mkResponse 500 (Parsed (JObject ∅)))) = Throw e
       /\ name e = "UpstreamError") /\
  ~ (exists e,
       getCurrentPrice (Resolved (mkResponse 200 (Parsed (JObject ∅)))) = Throw e
       /\ name e = "NotFoundError").
Proof.
  split; [reflexivity | split; [reflexivity | split ] ];
    intros (e & He & Hn); vm_compute in He; injection He as <-; discriminate Hn.
Qed.

(** C6, amended.  [getCurrentPrice] takes no symbol: it reads the field
    [HYPE].  It has no fallback, every failure reaches the caller: the
    rejection of [fetch] and the parser's error as they are; a plain [Error]
    with message "HTTP error! status: <status>" on a status outside 200-299;
    a [TypeError] on the body [null]; a plain [Error] with message
    "HYPE price not found in response" when [HYPE] is absent or falsy.  When
    [HYPE] is a non-empty string it returns [parseFloat] of that string, and
    it returns a value in no case but a success response with a truthy
    [HYPE]. *)
Theorem getCurrentPrice_fails_loud (o : fetched) :
  (forall e, o = Rejected e -> getCurrentPrice o = Throw e) /\
  (forall r, o = Resolved r -> ok r = false ->
     getCurrentPrice o =
       Throw (Error ("HTTP error! status: " +:+ Number_toString (of_Z (status r))))) /\
  (forall r e, o = Resolved r -> ok r = true -> payload r = Malformed e ->
     getCurrentPrice o = Throw e) /\
  (success_with o JNull -> getCurrentPrice o = Throw (TypeError_null "HYPE")) /\
  (forall data, success_with o data -> data <> JNull ->
     truthy_opt (field data "HYPE") = false ->
     getCurrentPrice o = Throw (Error "HYPE price not found in response")) /\
  (forall data s, success_with o data ->
     field data "HYPE" = Some (JString s) -> s <> "" ->
     getCurrentPrice o = Return (parseFloat s)) /\
  (forall x, getCurrentPrice o = Return x ->
     exists data, success_with o data /\
       truthy_opt (field data "HYPE") = true /\
       x = parseFloat_any (field data "HYPE")).
Proof.
  repeat split.
  - by intros e ->.
  - intros r -> Hr. unfold getCurrentPrice; cbn. by rewrite Hr.
  - intros r e -> Hr Hb. unfold getCurrentPrice, json_of; cbn. by rewrite Hr, Hb.
  - intros H. on_success H. reflexivity.
  - intros data H Hnn Hf. on_success H. rewrite get_not_null by done; cbn.
    by rewrite Hf.
  - intros data s H Hf Hs.
    assert (Hnn : data <> JNull) by (intros ->; discriminate Hf).
    on_success H. rewrite get_not_null by done; cbn. rewrite Hf; cbn.
    destruct (String.eqb_spec s ""); [done | reflexivity].
  - intros x. unfold getCurrentPrice.
    destruct o as [e | [st [data | e]]]; cbn; [done | | ].
    + destruct (ok _) eqn:Hok; cbn; [ | done ].
      apply ok_status in Hok.
      destruct data; cbn; try done;
        match goal with
        | |- context [truthy_opt ?f] =>
            destruct (truthy_opt f) eqn:Ht; cbn; [ | done ]
        end;
        intros [= <-]; eexists; (split; [ exists st; split; [reflexivity | lia] | ]);
        split; done.
    + destruct (ok _); cbn; done.
Qed.

Lemma getCurrentPrice_fails_loud_witness :
  getCurrentPrice
    (Resolved (mkResponse 200 (Parsed (JObject (<["HYPE" := JString "41.25"]> ∅)))))
    = Return (Fin 4125 2).
Proof.
  refine (proj1 (proj2 (proj2 (proj2 (proj2 (proj2
    (getCurrentPrice_fails_loud _)))))) _ "41.25" _ _ _).
  - exists 200. split; [reflexivity | lia].
  - reflexivity.
  - discriminate.
Defined.

Lemma abs_of_negative x : Num.ltb x zero = true -> abs x = neg x.
Proof.
  destruct x as [ | [] | m k]; cbn; try done.
  unfold pow10; cbn. rewrite Z.mul_1_r. intros H%Z.ltb_lt.
  by rewrite Z.abs_neq by lia.
Qed.

Lemma filter_of_map {A B} (f : B -> bool) (g : A -> B) (l : list A) :
  List.filter f (List.map g l) = List.map g (List.filter (fun x => f (g x)) l).
Proof.
  induction l as [ | a l IH]; cbn; [done | ].
  destruct (f (g a)); cbn; by rewrite IH.
Qed.

Lemma parse_level_raw l :
  parse_level (level_json l) = Return (parseFloat (px l), parseFloat (sz l)).
Proof. reflexivity. Qed.

Lemma mapM_parse_level ls :
  mapM parse_level (level_json <$> ls)
    = Return (List.map (fun l => (parseFloat (px l), parseFloat (sz l))) ls).
Proof.
  induction ls as [ | l ls IH]; [done | ].
  cbn [fmap list_fmap mapM]. rewrite parse_level_raw.
  cbn [mbind result_bind bind]. fold (fmap (M:=list) level_json ls).
  by rewrite IH.
Qed.

Lemma levels_map_raw m ls :
  levels_map (JObject (<["levels" := JArray (level_json <$> ls)]> m))
    = Return (Some (List.map (fun l => (parseFloat (px l), parseFloat (sz l))) ls)).
Proof.
  unfold levels_map; cbn [get mbind result_bind bind].
  rewrite lookup_insert_eq, mapM_parse_level. reflexivity.
Qed.

Lemma asks_of_raw ls :
  List.map (fun level : number * number => (level.1, abs level.2))
    (List.filter (fun level => Num.ltb level.2 zero)
       (List.map (fun l => (parseFloat (px l), parseFloat (sz l))) ls))
  = spec_asks ls.
Proof.
  rewrite filter_of_map. unfold spec_asks, negative_size; cbn [snd].
  induction ls as [ | l ls IH]; cbn [List.filter List.map]; [done | ].
  destruct (Num.ltb (parseFloat (sz l)) zero) eqn:Hneg; fold zero;
    rewrite ?Hneg; cbn [List.map fst snd]; [ | exact IH ].
  by rewrite IH, (abs_of_negative _ Hneg).
Qed.



Lemma record_price_lookup prices k v j :
  record_price prices (k, v) !! j =
    if decide (k = j) then
      match price_at k v with Some x => Some x | None => prices !! j end
    else prices !! j.
Proof.
  unfold record_price, assign, price_at; cbn [fst snd].
  destruct v; cbn [price_of]; destruct (String.eqb k "__proto__");
    case_decide; subst; try done.
  - by rewrite lookup_insert_eq.
  - by rewrite lookup_insert_ne.
Qed.

Lemma foldl_record_price_lookup (l : list (string * json)) prices j :
  NoDup l.*1 ->
  foldl record_price prices l !! j =
    match (list_to_map l : gmap string json) !! j with
    | Some v => match price_at j v with Some x => Some x | None => prices !! j end
    | None => prices !! j
    end.
Proof.
  revert prices. induction l as [ | [k v] l IH]; intros prices Hnd; [done | ].
  apply NoDup_cons in Hnd as [Hk Hnd]. cbn [foldl list_to_map foldr].
  rewrite IH by done. rewrite record_price_lookup.
  fold (list_to_map (M:=gmap string json) l).
  destruct (decide (k = j)) as [-> | Hne].
  - rewrite lookup_insert_eq.
    by rewrite (not_elem_of_list_to_map_1 (M:=gmap string) l j Hk).
  - by rewrite lookup_insert_ne.
Qed.

Lemma prices_of_object (m : gmap string json) j :
  foldl record_price ∅ (map_to_list m) !! j = m !! j ≫= price_at j.
Proof.
  rewrite foldl_record_price_lookup by apply NoDup_fst_map_to_list.
  rewrite list_to_map_to_list, lookup_empty.
  destruct (m !! j) as [v | ]; cbn; [ by destruct (price_at j v) | done ].
Qed.

Lemma price_at_other k v : k <> "__proto__" -> price_at k v = price_of v.
Proof. intros Hk. unfold price_at. by destruct (String.eqb_spec k "__proto__"). Qed.




(** ** The venue adapter: the subscription *)

Lemma close_not_open ws :
  readyState (close ws) = CLOSING \/ readyState (close ws) = CLOSED.
Proof. unfold close. destruct (readyState ws) eqn:H; cbn; rewrite ?H; auto. Qed.

(** C9.  [disconnect] is idempotent.  In every state of the adapter it
    runs without raising; it calls [close] on the socket [wsConnection]
    refers to, if there is one, which leaves that socket closing or closed
    and the other sockets as they were; it leaves [wsConnection] cleared;
    and a second call changes nothing: the reference is cleared after each
    of the two calls. *)
Theorem disconnect_idempotent (w : World) :
  disconnect (disconnect w) = disconnect w /\
  wsConnection (disconnect w) = None /\
  wsConnection (disconnect (disconnect w)) = None /\
  run w [Disconnect; Disconnect] = Some (disconnect w) /\
  (forall i, wsConnection w = Some i ->
     sockets (disconnect w) !! i = close <$> sockets w !! i /\
     (forall ws, sockets (disconnect w) !! i = Some ws ->
        readyState ws = CLOSING \/ readyState ws = CLOSED) /\
     forall j, j <> i -> sockets (disconnect w) !! j = sockets w !! j) /\
  (wsConnection w = None -> disconnect w = w).
Proof.
  assert (Hnone : wsConnection (disconnect w) = None).
  { unfold disconnect. by destruct (wsConnection w) eqn:H. }
  assert (Hidem : disconnect (disconnect w) = disconnect w).
  { unfold disconnect at 1. by rewrite Hnone. }
  split; [done | ]. split; [done | ]. split; [by rewrite Hidem | ].
  split; [by cbn; rewrite Hidem | ]. split.
  - intros i Hi. unfold disconnect; rewrite Hi; cbn. split; [ | split ].
    + apply list_lookup_alter_eq.
    + intros ws. rewrite list_lookup_alter_eq.
      destruct (sockets w !! i) as [ws0 | ]; cbn; [ | done ].
      intros [= <-]. apply close_not_open.
    + intros j Hj. by apply list_lookup_alter_ne.
  - intros H. unfold disconnect. by rewrite H.
Qed.

(** ** Decimals against the rationals *)

Lemma pow10_pos k : 0 < pow10 k.
Proof. unfold pow10. apply Z.pow_pos_nonneg; lia. Qed.

Lemma pow10_S k : pow10 (S k) = 10 * pow10 k.
Proof. unfold pow10. rewrite Nat2Z.inj_succ, Z.pow_succ_r; lia. Qed.

Lemma inject_pow10_nonzero k : ~ (inject_Z (pow10 k) == 0)%Q.
Proof. pose proof (pow10_pos k). unfold Qeq; cbn. lia. Qed.

Lemma to_Q_norm m k : (Num.to_Q (norm m k) == inject_Z m / inject_Z (pow10 k))%Q.
Proof.
  revert m. induction k as [ | k IH]; intros m; cbn [norm]; [reflexivity | ].
  destruct (m mod 10 =? 0) eqn:Hm; [ | reflexivity ].
  apply Z.eqb_eq in Hm. rewrite IH, pow10_S, inject_Z_mult.
  assert (Hdiv : m = 10 * (m / 10)) by (apply Z.div_exact; lia).
  rewrite Hdiv at 2. rewrite inject_Z_mult. field. apply inject_pow10_nonzero.
Qed.

(** ** Binary64: rounding is monotone *)

Module DoubleFacts.

Import Double.

Lemma pow2_pos e : (0 < pow2 e)%Q.
Proof. apply Qpower_0_lt. reflexivity. Qed.

Lemma pow2_add a b : (pow2 (a + b) == pow2 a * pow2 b)%Q.
Proof. apply Qpower_plus. discriminate. Qed.

Lemma pow2_le a b : a <= b -> (pow2 a <= pow2 b)%Q.
Proof. intros H. apply Qpower_le_compat_l; [exact H | discriminate]. Qed.

Lemma pow2_Z k : 0 <= k -> (pow2 k == inject_Z (2 ^ k))%Q.
Proof. intros H. unfold pow2. by rewrite (Zpower_Qpower 2 k H). Qed.

Lemma pow2_0 : (pow2 0 == 1)%Q.
Proof. reflexivity. Qed.

Lemma pow2_div a b : (pow2 a / pow2 b == pow2 (a - b))%Q.
Proof.
  replace (a - b) with (a + - b) by lia. rewrite pow2_add.
  unfold pow2. rewrite Qpower_opp. reflexivity.
Qed.

(** *** rne *)

Lemma inject_Z_succ z : (inject_Z (z + 1) == inject_Z z + 1)%Q.
Proof. by rewrite inject_Z_plus. Qed.

Lemma rne_cases q :
  let f := Qfloor q in
  (rne q = f /\ (q - inject_Z f <= 1 # 2)%Q /\
     ((q - inject_Z f == 1 # 2)%Q -> Z.even f = true)) \/
  (rne q = f + 1 /\ (1 # 2 <= q - inject_Z f)%Q /\
     ((q - inject_Z f == 1 # 2)%Q -> Z.even f = false)).
Proof.
  intros f. unfold rne. fold f.
  destruct (Qcompare_spec (q - inject_Z f) (1 # 2)) as [H | H | H].
  - destruct (Z.even f) eqn:E; [left | right]; (split; [done | ]); split; try done;
      rewrite H; apply Qle_refl.
  - left. split; [done | ]. split; [by apply Qlt_le_weak | ].
    intros E. rewrite E in H. by apply Qlt_irrefl in H.
  - right. split; [done | ]. split; [by apply Qlt_le_weak | ].
    intros E. rewrite E in H. by apply Qlt_irrefl in H.
Qed.

Lemma floor_bounds q : (inject_Z (Qfloor q) <= q)%Q /\ (q < inject_Z (Qfloor q) + 1)%Q.
Proof.
  split; [apply Qfloor_le | ]. rewrite <- inject_Z_succ. apply Qlt_floor.
Qed.

Lemma rne_mono p q : (p <= q)%Q -> rne p <= rne q.
Proof.
  intros H. pose proof (Qfloor_resp_le _ _ H) as Hf.
  pose proof (floor_bounds p) as [Hp1 Hp2]. pose proof (floor_bounds q) as [Hq1 Hq2].
  destruct (rne_cases p) as [(-> & Hp & Ep) | (-> & Hp & Ep)];
    destruct (rne_cases q) as [(-> & Hq & Eq) | (-> & Hq & Eq)]; try lia.
  destruct (Z.eq_dec (Qfloor p) (Qfloor q)) as [E | NE]; [ | lia ].
  exfalso. rewrite E in *.
  assert (Hp' : (p - inject_Z (Qfloor q) == 1 # 2)%Q) by lra.
  assert (Hq' : (q - inject_Z (Qfloor q) == 1 # 2)%Q) by lra.
  specialize (Ep Hp'). specialize (Eq Hq'). congruence.
Qed.

Lemma rne_Z z : rne (inject_Z z) = z.
Proof.
  unfold rne. rewrite Qfloor_Z.
  destruct (Qcompare_spec (inject_Z z - inject_Z z) (1 # 2)) as [H | H | H]; [ | done | ];
    exfalso; lra.
Qed.

Lemma rne_ge z q : (inject_Z z <= q)%Q -> z <= rne q.
Proof. intros H. rewrite <- (rne_Z z). by apply rne_mono. Qed.

Lemma rne_le z q : (q <= inject_Z z)%Q -> rne q <= z.
Proof. intros H. rewrite <- (rne_Z z). by apply rne_mono. Qed.

Lemma rne_opp q : rne (- q) = - rne q.
Proof.
  pose proof (floor_bounds q) as [H1 H2]. pose proof (floor_bounds (- q)) as [G1 G2].
  set (f := Qfloor q) in *. set (g := Qfloor (- q)) in *.
  assert (Hg : g = - f \/ g = - f - 1).
  { assert (A : (inject_Z g <= inject_Z (- f))%Q) by (rewrite inject_Z_opp; lra).
    assert (B : (inject_Z (- f - 1) < inject_Z (g + 1))%Q).
    { unfold Z.sub. rewrite !inject_Z_plus, !inject_Z_opp.
      change (inject_Z 1) with 1%Q. lra. }
    rewrite <- Zle_Qle in A. rewrite <- Zlt_Qlt in B. lia. }
  destruct (rne_cases q) as [(-> & Hq & Eq) | (-> & Hq & Eq)];
    destruct (rne_cases (- q)) as [(-> & Hn & En) | (-> & Hn & En)];
    fold f in Hq, Eq |- *; fold g in Hn, En |- *;
    destruct Hg as [-> | ->];
    unfold Z.sub in *;
    rewrite ?inject_Z_plus, ?inject_Z_opp in *;
    change (inject_Z 1) with 1%Q in *; try lia.
  all: exfalso; try lra.
  all: match type of Eq with ?P -> _ => assert (E1 : P) by lra; specialize (Eq E1) end;
       match type of En with ?P -> _ => assert (E2 : P) by lra; specialize (En E2) end;
       rewrite ?Z.even_add, ?Z.even_opp in En; rewrite Eq in En; discriminate En.
Qed.

Lemma rne_compat p q : (p == q)%Q -> rne p = rne q.
Proof.
  intros H. apply Z.le_antisymm; apply rne_mono; rewrite H; apply Qle_refl.
Qed.

(** *** ilog2 *)

Lemma ilog2_spec x :
  (0 < x)%Q -> (pow2 (ilog2 x) <= x)%Q /\ (x < pow2 (ilog2 x + 1))%Q.
Proof.
  intros Hx. destruct x as [n d]. assert (Hn : 0 < n).
  { unfold Qlt in Hx; cbn in Hx. lia. }
  unfold ilog2; cbn [Qnum Qden].
  set (a := Z.log2 n). set (b := Z.log2 (Z.pos d)).
  destruct (Z.log2_spec n Hn) as [Ha1 Ha2]. fold a in Ha1, Ha2.
  destruct (Z.log2_spec (Z.pos d) eq_refl) as [Hb1 Hb2]. fold b in Hb1, Hb2.
  assert (Ha0 : 0 <= a) by apply Z.log2_nonneg.
  assert (Hb0 : 0 <= b) by apply Z.log2_nonneg.
  assert (Pa : 0 < 2 ^ a) by (apply Z.pow_pos_nonneg; lia).
  assert (Pb : 0 < 2 ^ b) by (apply Z.pow_pos_nonneg; lia).
  assert (Hhi : (n # d < pow2 (a - b + 1))%Q).
  { apply (Qmult_lt_r _ _ (pow2 b)); [apply pow2_pos | ].
    rewrite <- pow2_add. replace (a - b + 1 + b) with (Z.succ a) by lia.
    rewrite !pow2_Z by lia.
    unfold Qlt, Qmult, inject_Z; cbn [Qnum Qden]. rewrite Pos.mul_1_r. nia. }
  assert (Hlo : (pow2 (a - b - 1) <= n # d)%Q).
  { apply (Qmult_le_r _ _ (pow2 (Z.succ b))); [apply pow2_pos | ].
    rewrite <- pow2_add. replace (a - b - 1 + Z.succ b) with a by lia.
    rewrite !pow2_Z by lia.
    unfold Qle, Qmult, inject_Z; cbn [Qnum Qden]. rewrite Pos.mul_1_r. nia. }
  destruct (Qle_bool (pow2 (a - b)) (n # d)) eqn:E.
  - apply Qle_bool_iff in E. done.
  - replace (a - b - 1 + 1) with (a - b) by lia. split; [done | ].
    apply Qnot_le_lt. intros H. apply Qle_bool_iff in H. congruence.
Qed.

Lemma ilog2_mono x y : (0 < x)%Q -> (x <= y)%Q -> ilog2 x <= ilog2 y.
Proof.
  intros Hx Hxy. assert (Hy : (0 < y)%Q) by lra.
  destruct (ilog2_spec x Hx) as [X1 X2]. destruct (ilog2_spec y Hy) as [Y1 Y2].
  destruct (Z_le_gt_dec (ilog2 x) (ilog2 y)) as [ | Hgt]; [done | exfalso].
  assert (H : (pow2 (ilog2 y + 1) <= pow2 (ilog2 x))%Q) by (apply pow2_le; lia).
  lra.
Qed.

Lemma ilog2_le x k : (0 < x)%Q -> (x <= pow2 k)%Q -> ilog2 x <= k.
Proof.
  intros Hx Hk. destruct (ilog2_spec x Hx) as [X1 X2].
  destruct (Z_le_gt_dec (ilog2 x) k) as [ | Hgt]; [done | exfalso].
  assert (H : (pow2 (k + 1) <= pow2 (ilog2 x))%Q) by (apply pow2_le; lia).
  assert (H' : (pow2 k < pow2 (k + 1))%Q).
  { rewrite pow2_add. pose proof (pow2_pos k). change (pow2 1) with 2%Q. lra. }
  lra.
Qed.

(** *** The rounded value *)

Lemma Qabs_opp_eq x : Qabs (- x) = Qabs x.
Proof. destruct x as [n d]. cbn. by rewrite Z.abs_opp. Qed.

Lemma Qabs_pos_eq x : (0 <= x)%Q -> Qabs x = x.
Proof.
  destruct x as [n d]. unfold Qle; cbn. intros H. rewrite Z.abs_eq by lia. done.
Qed.

Lemma ulp_exp_opp x : ulp_exp (- x) = ulp_exp x.
Proof. unfold ulp_exp. by rewrite Qabs_opp_eq. Qed.

Lemma ulp_exp_mono x y : (0 < x)%Q -> (x <= y)%Q -> ulp_exp x <= ulp_exp y.
Proof.
  intros Hx Hxy. unfold ulp_exp.
  assert (ilog2 (Qabs x) <= ilog2 (Qabs y)); [ | lia ].
  rewrite !Qabs_pos_eq by lra. by apply ilog2_mono.
Qed.

Lemma rnd_opp x : (rnd (- x) == - rnd x)%Q.
Proof.
  unfold rnd. rewrite ulp_exp_opp.
  rewrite (rne_compat (- x / pow2 (ulp_exp x)) (- (x / pow2 (ulp_exp x)))).
  - rewrite rne_opp, inject_Z_opp. ring.
  - unfold Qdiv. ring.
Qed.

Lemma rnd_nonneg x : (0 <= x)%Q -> (0 <= rnd x)%Q.
Proof.
  intros Hx. unfold rnd. pose proof (pow2_pos (ulp_exp x)) as Hp.
  apply Qmult_le_0_compat; [ | lra ].
  change 0%Q with (inject_Z 0). rewrite <- Zle_Qle. apply rne_ge.
  apply Qle_shift_div_l; [done | ]. change (inject_Z 0) with 0%Q. lra.
Qed.

Lemma rnd_mono_pos x y : (0 < x)%Q -> (x <= y)%Q -> (rnd x <= rnd y)%Q.
Proof.
  intros Hx Hxy. assert (Hy : (0 < y)%Q) by lra.
  pose proof (ulp_exp_mono x y Hx Hxy) as He. unfold rnd.
  set (ex := ulp_exp x) in *. set (ey := ulp_exp y) in *.
  pose proof (pow2_pos ex) as Px. pose proof (pow2_pos ey) as Py.
  destruct (Z.eq_dec ex ey) as [E | NE].
  - rewrite E. apply Qmult_le_compat_r; [ | lra ].
    rewrite <- Zle_Qle. apply rne_mono.
    apply Qmult_le_compat_r; [done | ]. apply Qlt_le_weak, Qinv_lt_0_compat, Py.
  - assert (Hlt : ex < ey) by lia.
    assert (Hey : ey = ilog2 (Qabs y) - 52) by (unfold ey, ulp_exp, precision, emin in *; lia).
    assert (Hex : ilog2 (Qabs x) - 52 <= ex) by (unfold ex, ulp_exp, precision; lia).
    rewrite (Qabs_pos_eq y) in Hey by lra. rewrite (Qabs_pos_eq x) in Hex by lra.
    destruct (ilog2_spec y Hy) as [Y1 _]. destruct (ilog2_spec x Hx) as [_ X2].
    apply Qle_trans with (pow2 (ey + 52)).
    + set (t := ey + 52 - ex).
      assert (Ht : 0 <= t) by (unfold t; lia).
      assert (Hx' : (x <= pow2 (ey + 52))%Q).
      { apply Qle_trans with (pow2 (ilog2 x + 1)); [lra | apply pow2_le; lia]. }
      assert (Hr : rne (x / pow2 ex) <= 2 ^ t).
      { apply rne_le. apply Qle_shift_div_r; [done | ].
        rewrite <- (pow2_Z t), <- pow2_add by done.
        by replace (t + ex) with (ey + 52) by (unfold t; lia). }
      replace (ey + 52) with (t + ex) by (unfold t; lia).
      rewrite pow2_add, (pow2_Z t) by done.
      apply Qmult_le_compat_r; [ | lra ]. by rewrite <- Zle_Qle.
    + assert (Hr : 2 ^ 52 <= rne (y / pow2 ey)).
      { apply rne_ge. apply Qle_shift_div_l; [done | ].
        rewrite <- (pow2_Z 52), <- pow2_add by lia.
        replace (52 + ey) with (ilog2 y) by lia. done. }
      rewrite (Z.add_comm ey 52), pow2_add, (pow2_Z 52) by lia.
      apply Qmult_le_compat_r; [ | lra ]. by rewrite <- Zle_Qle.
Qed.

Lemma rnd_mono x y : (x <= y)%Q -> (rnd x <= rnd y)%Q.
Proof.
  intros Hxy. destruct (Qlt_le_dec 0 x) as [Hx | Hx]; [by apply rnd_mono_pos | ].
  destruct (Qlt_le_dec y 0) as [Hy | Hy].
  - assert (H : (rnd (- y) <= rnd (- x))%Q) by (apply rnd_mono_pos; lra).
    rewrite !rnd_opp in H. lra.
  - pose proof (rnd_nonneg y Hy) as H1.
    assert (H2 : (0 <= rnd (- x))%Q) by (apply rnd_nonneg; lra).
    rewrite rnd_opp in H2. lra.
Qed.

Lemma rnd_compat x y : (x == y)%Q -> (rnd x == rnd y)%Q.
Proof. intros H. apply Qle_antisym; apply rnd_mono; rewrite H; apply Qle_refl. Qed.

Lemma round_val x : (val (round x).1 (round x).2 == rnd x)%Q.
Proof.
  unfold round, rnd. set (e := ulp_exp x). set (m := rne (x / pow2 e)).
  destruct (Z.eqb_spec m 0) as [-> | _]; [ cbn; unfold val; ring | ].
  destruct (Z.eqb_spec (Z.abs m) (2 ^ precision)) as [E | _]; [ | reflexivity ].
  cbn [fst snd]. unfold val. rewrite pow2_add. change (pow2 1) with 2%Q.
  assert (Hm : m = 2 * (m / 2)).
  { unfold precision in E.
    destruct (Z.abs_eq_or_opp m) as [H | H]; rewrite H in E.
    - rewrite E. reflexivity.
    - assert (m = - 2 ^ 53) as -> by lia. reflexivity. }
  rewrite Hm at 2. rewrite inject_Z_mult. change (inject_Z 2) with 2%Q. ring.
Qed.

(** The exponent of a result of magnitude at most 1. *)
Lemma round_exp x : (Qabs x <= 1)%Q -> (round x).2 <= 0.
Proof.
  intros Hx. unfold round. set (e := ulp_exp x). set (m := rne (x / pow2 e)).
  destruct (Z.eqb_spec m 0) as [ | Hm]; [done | ].
  assert (Hpos : (0 < Qabs x)%Q).
  { apply Qnot_le_lt. intros H. apply Hm. unfold m.
    assert (Hz : (x == 0)%Q).
    { pose proof (Qabs_nonneg x) as Hn.
      assert (Ha : (Qabs x <= 0)%Q) by exact H.
      apply Qabs_Qle_condition in Ha. lra. }
    rewrite (rne_compat _ (inject_Z 0)); [apply rne_Z | ].
    rewrite Hz. unfold Qdiv. ring. }
  assert (He : e <= -52).
  { unfold e, ulp_exp, precision, emin.
    pose proof (ilog2_le (Qabs x) 0 Hpos Hx). lia. }
  destruct (Z.abs m =? 2 ^ precision); cbn [snd]; lia.
Qed.

Lemma of_Q_small x : (Qabs x <= 1)%Q -> of_Q x = DFin (round x).1 (round x).2.
Proof.
  intros Hx. pose proof (round_exp x Hx) as He. unfold of_Q.
  destruct (round x) as [m e]. cbn [fst snd] in *.
  destruct (Z.ltb_spec (emax - precision) e) as [H | _]; [ | done ].
  unfold emax, precision in H. lia.
Qed.

Lemma of_Q_value x :
  (Qabs x <= 1)%Q -> finite (of_Q x) /\ (to_Q (of_Q x) == rnd x)%Q.
Proof.
  intros Hx. rewrite (of_Q_small x Hx). split; [done | ]. apply round_val.
Qed.

Lemma to_Q_neg x : finite x -> finite (neg x) /\ (to_Q (neg x) == - to_Q x)%Q.
Proof.
  destruct x as [ | | m e]; try done. intros _. split; [done | ].
  cbn [neg to_Q]. unfold val. rewrite inject_Z_opp. ring.
Qed.

Lemma to_Q_add x y :
  finite x -> finite y -> (Qabs (to_Q x + to_Q y) <= 1)%Q ->
  finite (add x y) /\ (to_Q (add x y) == rnd (to_Q x + to_Q y))%Q.
Proof.
  destruct x as [ | | a i], y as [ | | b j]; try done. intros _ _.
  cbn [add to_Q]. apply of_Q_value.
Qed.

Lemma to_Q_sub x y :
  finite x -> finite y -> (Qabs (to_Q x - to_Q y) <= 1)%Q ->
  finite (sub x y) /\ (to_Q (sub x y) == rnd (to_Q x - to_Q y))%Q.
Proof.
  intros Hx Hy Hb. destruct (to_Q_neg y Hy) as [Hn Hq]. unfold sub.
  assert (E : (to_Q x + to_Q (neg y) == to_Q x - to_Q y)%Q) by (rewrite Hq; ring).
  destruct (to_Q_add x (neg y) Hx Hn) as [Hf Hs].
  { apply Qabs_Qle_condition. apply Qabs_Qle_condition in Hb. lra. }
  split; [done | ]. rewrite Hs. by apply rnd_compat.
Qed.

Lemma to_Q_mul x y :
  finite x -> finite y -> (Qabs (to_Q x * to_Q y) <= 1)%Q ->
  finite (mul x y) /\ (to_Q (mul x y) == rnd (to_Q x * to_Q y))%Q.
Proof.
  destruct x as [ | | a i], y as [ | | b j]; try done. intros _ _.
  cbn [mul to_Q]. apply of_Q_value.
Qed.

Lemma leb_to_Q x y :
  finite x -> finite y -> leb x y = true <-> (to_Q x <= to_Q y)%Q.
Proof.
  destruct x as [ | | a i], y as [ | | b j]; try done. intros _ _.
  cbn [leb to_Q]. apply Qle_bool_iff.
Qed.

(** A binary64 value and its decimal expansion denote the same rational. *)
Lemma to_number_exact m e :
  (Num.to_Q (to_number (DFin m e)) == val m e)%Q.
Proof.
  unfold to_number, val. destruct (Z.leb_spec 0 e) as [He | He].
  - cbn [Num.to_Q]. rewrite inject_Z_mult, pow2_Z by done.
    change (inject_Z (pow10 0)) with 1%Q. field.
  - rewrite to_Q_norm. set (k := - e).
    assert (Hk : 0 <= k) by (unfold k; lia).
    replace e with (- k) by (unfold k; lia).
    unfold pow2 at 1. rewrite Qpower_opp. fold (pow2 k). rewrite pow2_Z by done.
    unfold pow10. rewrite Z2Nat.id by done.
    replace (10 ^ k) with (2 ^ k * 5 ^ k) by (rewrite <- Z.pow_mul_l; reflexivity).
    rewrite !inject_Z_mult.
    assert (P2 : 0 < 2 ^ k) by (apply Z.pow_pos_nonneg; lia).
    assert (P5 : 0 < 5 ^ k) by (apply Z.pow_pos_nonneg; lia).
    field. split; intros H; apply (Qeq_sym) in H; revert H; apply Qlt_not_eq;
      change 0%Q with (inject_Z 0); rewrite <- Zlt_Qlt; done.
Qed.

(** On sample values of [Math.random()], the smallest and the largest
    included, the rate computed here is the one that Rocq's primitive
    binary64 numbers give for the expression of the source. *)
Module PrimitiveFloats.

Import PrimFloat.

#[local] Set Warnings "-inexact-float".

Lemma mockRate_agrees :
  Forall (fun r : float =>
    of_float (0.0001 + (r - 0.5) * 0.00005)%float
      = BorosClient.mockRate "BTC" (of_float r) /\
    of_float (0.00005 + (r - 0.5) * 0.00005)%float
      = BorosClient.mockRate "ETH" (of_float r))
    [0; 0x1p-1074; 0x1p-1022; 0x1p-53; 0.1; 0.25; 0.3; 0x1.fffffffffffffp-2;
     0.5; 0x1.0000000000001p-1; 0.7; 0.75; 0.9; 0x1.ffffffffffffep-1;
     0x1.fffffffffffffp-1]%float.
Proof.
  repeat (apply List.Forall_cons; [split; vm_compute; reflexivity | ]).
  apply List.Forall_nil.
Qed.

Lemma literals_agree :
  of_float 0.0001%float = of_number (Fin 1 4) /\
  of_float 0.00005%float = of_number (Fin 5 5) /\
  of_float 0.000025%float = of_number (Fin 25 6) /\
  of_float 0.5%float = of_number (Fin 5 1) /\
  of_float (0.0001 - 0.000025)%float
    = Double.sub (of_number (Fin 1 4)) (of_number (Fin 25 6)) /\
  of_float (0.0001 + 0.000025)%float
    = Double.add (of_number (Fin 1 4)) (of_number (Fin 25 6)).
Proof. repeat split; vm_compute; reflexivity. Qed.

End PrimitiveFloats.

End DoubleFacts.

(** ** The synthetic history of [getMockHistoricalRates] *)

Lemma mockLoop_step asset now rnd i n data :
  mockLoop asset now rnd i n data =
    if Z_le_gt_dec 0 i
    then mockLoop asset now rnd (i - 1) (S n)
           (data ++ [mock_point asset now rnd i n])
    else data.
Proof.
  rewrite mockLoop_equation_1. destruct (Z_le_gt_dec 0 i); reflexivity.
Qed.

Lemma mockLoop_points asset now rnd (c : nat) :
  forall i n data, Z.of_nat c = i + 1 ->
    mockLoop asset now rnd i n data =
      data ++ ((fun j : nat => mock_point asset now rnd (i - Z.of_nat j) (n + j))
                 <$> seq 0 c).
Proof.
  induction c as [ | c IH]; intros i n data Hc; rewrite mockLoop_step.
  - destruct (Z_le_gt_dec 0 i); [lia | ]. cbn. by rewrite app_nil_r.
  - destruct (Z_le_gt_dec 0 i); [ | lia ].
    rewrite (IH (i - 1) (S n)) by lia. rewrite <- app_assoc. f_equal.
    cbn [seq fmap list_fmap app]. f_equal.
    + f_equal; [lia | ]. by rewrite Nat.add_0_r.
    + rewrite <- fmap_S_seq, <- list_fmap_compose.
      apply list_fmap_ext. intros _ j _. cbn. f_equal; [lia | ].
      by rewrite Nat.add_succ_r.
Qed.

Lemma getMockHistoricalRates_points asset days now rnd :
  0 <= days ->
  getMockHistoricalRates asset days now rnd =
    (fun j : nat => mock_point asset now rnd (days - Z.of_nat j) j)
      <$> seq 0 (Z.to_nat (days + 1)).
Proof.
  intros Hd. unfold getMockHistoricalRates.
  by rewrite (mockLoop_points asset now rnd (Z.to_nat (days + 1))) by lia.
Qed.

Lemma getMockHistoricalRates_negative asset days now rnd :
  days < 0 -> getMockHistoricalRates asset days now rnd = [].
Proof.
  intros Hd. unfold getMockHistoricalRates. rewrite mockLoop_step.
  destruct (Z_le_gt_dec 0 days); [lia | done].
Qed.

Lemma mock_points_lookup asset days now rnd j p :
  0 <= days ->
  getMockHistoricalRates asset days now rnd !! j = Some p ->
  Z.of_nat j <= days /\
  p = mock_point asset now rnd (days - Z.of_nat j) j.
Proof.
  intros Hd. rewrite getMockHistoricalRates_points by done.
  rewrite list_lookup_fmap. destruct (seq _ _ !! j) as [i | ] eqn:Hj; [ | done ].
  apply lookup_seq in Hj as [-> Hlt]. cbn. intros [= <-]. split; [lia | done].
Qed.

(** The literals of [getMockHistoricalRates], and the bound 0.000025 of the
    specification, as binary64 values. *)
Lemma literals :
  Double.of_number (Fin 1 4) = DFin 7378697629483821 (-66) /\
  Double.of_number (Fin 5 5) = DFin 7378697629483821 (-67) /\
  Double.of_number (Fin 25 6) = DFin 7378697629483821 (-68) /\
  Double.of_number (Fin 5 1) = DFin 4503599627370496 (-53).
Proof. repeat split; vm_compute; reflexivity. Qed.

(** [b + (r - half) * c] against [b - h] and [b + h], where [c] is twice
    [h] and [half] is 1/2: the jitter [(r - half) * c] rounds to a value
    between [-h] and [h], and a sum rounds monotonically. *)
Lemma jitter_range (b r half c h : double) :
  Double.finite b -> Double.finite half -> Double.finite c -> Double.finite h ->
  (0 <= Double.to_Q b)%Q -> (Double.to_Q b <= 1 # 2)%Q ->
  (Double.to_Q half == 1 # 2)%Q ->
  (Double.to_Q c == 2 * Double.to_Q h)%Q ->
  (0 < Double.to_Q h)%Q -> (Double.to_Q h <= 1 # 4)%Q ->
  (Double.rnd (1 # 2) == 1 # 2)%Q ->
  (Double.rnd (Double.to_Q h) == Double.to_Q h)%Q ->
  in_unit r ->
  Double.finite (Double.add b (Double.mul (Double.sub r half) c)) /\
  Double.finite (Double.sub b h) /\
  Double.finite (Double.add b h) /\
  (Double.to_Q (Double.sub b h)
     <= Double.to_Q (Double.add b (Double.mul (Double.sub r half) c)))%Q /\
  (Double.to_Q (Double.add b (Double.mul (Double.sub r half) c))
     <= Double.to_Q (Double.add b h))%Q.
Proof.
  intros Hb Fhalf Fc Fh Hb0 Hb1 Ehalf Ec Hh0 Hh1 Rhalf Rh Hr.
  assert (Fr : Double.finite r) by (by destruct r).
  assert (Hr' : (0 <= Double.to_Q r)%Q /\ (Double.to_Q r < 1)%Q)
    by (by destruct r).
  destruct Hr' as [Hr0 Hr1]. clear Hr.
  (* r - 0.5 *)
  destruct (DoubleFacts.to_Q_sub r half Fr Fhalf) as [Fd Ed].
  { apply Qabs_Qle_condition. lra. }
  generalize dependent (Double.sub r half). intros d Fd Ed.
  assert (Hd : (- (1 # 2) <= Double.to_Q d)%Q /\ (Double.to_Q d <= 1 # 2)%Q).
  { rewrite Ed. split.
    - apply Qle_trans with (Double.rnd (- (1 # 2))).
      + rewrite DoubleFacts.rnd_opp, Rhalf. apply Qle_refl.
      + apply DoubleFacts.rnd_mono. lra.
    - apply Qle_trans with (Double.rnd (1 # 2)).
      + apply DoubleFacts.rnd_mono. lra.
      + rewrite Rhalf. apply Qle_refl. }
  (* (r - 0.5) * 0.00005 *)
  assert (Hdc : (- Double.to_Q h <= Double.to_Q d * Double.to_Q c)%Q /\
                (Double.to_Q d * Double.to_Q c <= Double.to_Q h)%Q).
  { rewrite Ec. destruct Hd as [Hd0 Hd1]. split; nra. }
  destruct (DoubleFacts.to_Q_mul d c Fd Fc) as [Fx Ex].
  { apply Qabs_Qle_condition. lra. }
  generalize dependent (Double.mul d c). intros x Fx Ex.
  assert (Hx : (- Double.to_Q h <= Double.to_Q x)%Q /\
               (Double.to_Q x <= Double.to_Q h)%Q).
  { rewrite Ex. split.
    - apply Qle_trans with (Double.rnd (- Double.to_Q h)).
      + rewrite DoubleFacts.rnd_opp, Rh. apply Qle_refl.
      + apply DoubleFacts.rnd_mono. lra.
    - apply Qle_trans with (Double.rnd (Double.to_Q h)).
      + apply DoubleFacts.rnd_mono. lra.
      + rewrite Rh. apply Qle_refl. }
  (* b + x, b - 0.000025, b + 0.000025 *)
  destruct (DoubleFacts.to_Q_add b x Hb Fx) as [Frate Erate].
  { apply Qabs_Qle_condition. lra. }
  destruct (DoubleFacts.to_Q_sub b h Hb Fh) as [Flo Elo].
  { apply Qabs_Qle_condition. lra. }
  destruct (DoubleFacts.to_Q_add b h Hb Fh) as [Fhi Ehi].
  { apply Qabs_Qle_condition. lra. }
  split; [exact Frate | ]. split; [exact Flo | ]. split; [exact Fhi | ].
  rewrite Erate, Elo, Ehi. split; apply DoubleFacts.rnd_mono; lra.
Qed.

(** What the proofs need of the four literals. *)
Lemma half_value : (Double.to_Q (DFin 4503599627370496 (-53)) == 1 # 2)%Q.
Proof. vm_compute. reflexivity. Qed.

Lemma half_round : (Double.rnd (1 # 2) == 1 # 2)%Q.
Proof. vm_compute. reflexivity. Qed.

Lemma jitter_twice :
  (Double.to_Q (DFin 7378697629483821 (-67))
     == 2 * Double.to_Q (DFin 7378697629483821 (-68)))%Q.
Proof. vm_compute. reflexivity. Qed.

Lemma jitter_bound :
  (0 < Double.to_Q (DFin 7378697629483821 (-68)))%Q /\
  (Double.to_Q (DFin 7378697629483821 (-68)) <= 1 # 4)%Q.
Proof. split; [ | apply Qle_bool_imp_le ]; vm_compute; reflexivity. Qed.

Lemma jitter_round :
  (Double.rnd (Double.to_Q (DFin 7378697629483821 (-68)))
     == Double.to_Q (DFin 7378697629483821 (-68)))%Q.
Proof. vm_compute. reflexivity. Qed.

Lemma base_bounds e :
  e = -66 \/ e = -67 ->
  (0 <= Double.to_Q (DFin 7378697629483821 e))%Q /\
  (Double.to_Q (DFin 7378697629483821 e) <= 1 # 2)%Q.
Proof.
  intros [-> | ->]; split; apply Qle_bool_imp_le; vm_compute; reflexivity.
Qed.

(** The end points [base - 0.000025] and [base + 0.000025], computed in
    binary64, are within 10^-19 of the decimals. *)
Lemma end_points_BTC :
  ((1 # 10000) - (25 # 1000000) - (1 # 10 ^ 19)
     <= Double.to_Q (Double.sub (DFin 7378697629483821 (-66))
                       (DFin 7378697629483821 (-68))))%Q /\
  (Double.to_Q (Double.add (DFin 7378697629483821 (-66))
                  (DFin 7378697629483821 (-68)))
     <= (1 # 10000) + (25 # 1000000) + (1 # 10 ^ 19))%Q.
Proof. split; apply Qle_bool_imp_le; vm_compute; reflexivity. Qed.

Lemma end_points_other :
  ((5 # 100000) - (25 # 1000000) - (1 # 10 ^ 19)
     <= Double.to_Q (Double.sub (DFin 7378697629483821 (-67))
                       (DFin 7378697629483821 (-68))))%Q /\
  (Double.to_Q (Double.add (DFin 7378697629483821 (-67))
                  (DFin 7378697629483821 (-68)))
     <= (5 # 100000) + (25 # 1000000) + (1 # 10 ^ 19))%Q.
Proof. split; apply Qle_bool_imp_le; vm_compute; reflexivity. Qed.

(** Every rate of the synthetic history passes the test
    [base - 0.000025 <= rate && rate <= base + 0.000025], and is within
    10^-19 of the interval with these end points taken exactly. *)
Lemma mockRate_in_range asset r :
  in_unit r ->
  Double.finite (mockRate asset r) /\
  Double.leb (Double.sub (baseRate asset) (Double.of_number (Fin 25 6)))
    (mockRate asset r) = true /\
  Double.leb (mockRate asset r)
    (Double.add (baseRate asset) (Double.of_number (Fin 25 6))) = true /\
  (base_Q asset - (25 # 1000000) - (1 # 10 ^ 19) <= Double.to_Q (mockRate asset r))%Q /\
  (Double.to_Q (mockRate asset r) <= base_Q asset + (25 # 1000000) + (1 # 10 ^ 19))%Q.
Proof.
  intros Hr. unfold mockRate, baseRate, base_Q.
  destruct literals as (-> & -> & -> & ->).
  destruct jitter_bound as [Hh0 Hh1].
  assert (H : exists e b,
    (if String.eqb asset "BTC"
     then DFin 7378697629483821 (-66) else DFin 7378697629483821 (-67))
      = DFin 7378697629483821 e /\
    (if String.eqb asset "BTC" then 1 # 10000 else 5 # 100000) = b /\
    (e = -66 \/ e = -67) /\
    (b - (25 # 1000000) - (1 # 10 ^ 19)
       <= Double.to_Q (Double.sub (DFin 7378697629483821 e)
                         (DFin 7378697629483821 (-68))))%Q /\
    (Double.to_Q (Double.add (DFin 7378697629483821 e)
                    (DFin 7378697629483821 (-68)))
       <= b + (25 # 1000000) + (1 # 10 ^ 19))%Q).
  { destruct (String.eqb asset "BTC"); eexists _, _;
      (split; [reflexivity | ]); (split; [reflexivity | ]).
    - split; [by left | exact end_points_BTC].
    - split; [by right | exact end_points_other]. }
  destruct H as (e & bq & -> & -> & He & Hlo & Hhi).
  destruct (base_bounds e He) as [Hb0 Hb1].
  destruct (jitter_range (DFin 7378697629483821 e) r
              (DFin 4503599627370496 (-53)) (DFin 7378697629483821 (-67))
              (DFin 7378697629483821 (-68)) I I I I Hb0 Hb1
              half_value jitter_twice Hh0 Hh1 half_round jitter_round Hr)
    as (Frate & Flo & Fhi & Glo & Ghi).
  split; [exact Frate | ].
  split; [apply DoubleFacts.leb_to_Q; assumption | ].
  split; [apply DoubleFacts.leb_to_Q; assumption | ].
  split; lra.
Qed.




(** ** The subscription as a transition system *)

Lemma state_of_Some w i st :
  state_of w i = Some st <->
  exists ws, sockets w !! i = Some ws /\ readyState ws = st.
Proof.
  unfold state_of. rewrite fmap_Some. split; intros (ws & ? & ?); eauto.
Qed.

Lemma live_count_app w ws :
  length (List.filter live (sockets w ++ [ws])) =
    (live_count w + if live ws then 1 else 0)%nat.
Proof.
  unfold live_count. rewrite List.filter_app, length_app. cbn.
  by destruct (live ws).
Qed.

Lemma live_filter_alter (f : WebSocket -> WebSocket) l i :
  (forall ws, l !! i = Some ws -> live (f ws) = live ws) ->
  length (List.filter live (alter f i l)) = length (List.filter live l).
Proof.
  revert i. induction l as [ | a l IH]; intros i Hf; [done | ].
  destruct i as [ | i]; cbn.
  - rewrite (Hf a eq_refl). by destruct (live a).
  - specialize (IH i (fun ws H => Hf ws H)). destruct (live a); cbn; by rewrite IH.
Qed.

Lemma live_filter_insert_closed l i ws ws' :
  l !! i = Some ws -> live ws = true -> live ws' = false ->
  (length (List.filter live (<[i := ws']> l)) + 1 =
   length (List.filter live l))%nat.
Proof.
  revert i. induction l as [ | a l IH]; intros i Hi Hl Hl'; [done | ].
  destruct i as [ | i].
  - cbn in *. injection Hi as ->. rewrite Hl, Hl'. cbn. lia.
  - specialize (IH i Hi Hl Hl').
    change (<[S i := ws']> (a :: l)) with (a :: <[i := ws']> l).
    cbn [List.filter]. destruct (live a); cbn [length]; lia.
Qed.

Lemma close_live ws : live (close ws) = live ws.
Proof. unfold close, live. by destruct (readyState ws) eqn:H; cbn; rewrite ?H. Qed.

Lemma step_url_ok w ev w' : step w ev = Some w' -> url_ok w' = url_ok w.
Proof.
  unfold step, subscribeToUpdates, disconnect, onopen, onmessage, onclose,
    ontimeout, subscribeToUpdates.
  intros H. repeat case_match; simplify_eq; cbn; try done.
Qed.

Lemma run_url_ok w evs w' : run w evs = Some w' -> url_ok w' = url_ok w.
Proof.
  revert w. induction evs as [ | ev evs IH]; intros w; cbn; [by intros [= ->] | ].
  destruct (step w ev) as [w1 | ] eqn:Hs; [ | done ].
  intros H. rewrite (IH _ H). by eapply step_url_ok.
Qed.

(** What one event does to the number of live sockets plus pending timers:
    a call of [subscribeToUpdates] adds one, nothing else changes it. *)
Lemma step_sustained w ev w' :
  step w ev = Some w' -> url_ok w = true ->
  (live_count w' + length (timers w') =
   live_count w + length (timers w) + if is_subscribe ev then 1 else 0)%nat.
Proof.
  intros H Hurl.
  destruct ev as [cb | | i | i d | i | i | k | dt]; cbn in H; cbn [is_subscribe].
  - injection H as <-. unfold subscribeToUpdates. rewrite Hurl.
    unfold live_count at 1; cbn. rewrite live_count_app. cbn. lia.
  - injection H as <-. unfold disconnect.
    destruct (wsConnection w) as [j | ]; cbn; [ | lia ].
    unfold live_count; cbn. rewrite live_filter_alter; [lia | ].
    intros; apply close_live.
  - destruct (state_of w i) as [[] | ] eqn:Hst; try discriminate H.
    injection H as <-. apply state_of_Some in Hst as (ws & Hi & Hrs).
    unfold live_count; cbn. rewrite live_filter_alter; [lia | ].
    intros ws' Hi'. rewrite Hi in Hi'. injection Hi' as <-.
    unfold live; cbn. by rewrite Hrs.
  - destruct (state_of w i) as [[] | ] eqn:Hst; try discriminate H.
    injection H as <-. unfold onmessage.
    repeat case_match; unfold live_count; cbn; lia.
  - destruct (state_of w i) as [[] | ] eqn:Hst; try discriminate H;
      injection H as <-; lia.
  - assert (Hlive : exists ws, sockets w !! i = Some ws /\ live ws = true
                      /\ w' = onclose i w).
    { destruct (state_of w i) as [st | ] eqn:Hst; [ | done ].
      apply state_of_Some in Hst as (ws & Hi & Hrs). exists ws.
      unfold live. rewrite Hrs. destruct st; try discriminate H;
        injection H as <-; done. }
    destruct Hlive as (ws & Hi & Hl & ->). unfold onclose; rewrite Hi.
    unfold live_count; cbn. rewrite length_app; cbn.
    pose proof (live_filter_insert_closed (sockets w) i ws
      (mkWebSocket CLOSED (listener ws) (created ws) (Some (clock w)))
      Hi Hl eq_refl). lia.
  - destruct (timers w !! k) as [t | ] eqn:Hk; [ | done ].
    destruct (due t <=? clock w); [ | done ]. injection H as <-.
    unfold ontimeout; rewrite Hk. unfold subscribeToUpdates; cbn. rewrite Hurl.
    unfold live_count at 1; cbn.
    pose proof (live_count_app w (mkWebSocket CONNECTING (retry t) (clock w) None)) as E.
    cbn in E. rewrite E.
    rewrite (length_delete (timers w) k) by (by rewrite Hk).
    apply lookup_lt_Some in Hk. lia.
  - destruct (0 <=? dt); [ | done ]. injection H as <-. cbn.
    unfold live_count; cbn. lia.
Qed.

Lemma step_closed_stays w ev w' j ws :
  step w ev = Some w' ->
  sockets w !! j = Some ws -> readyState ws = CLOSED ->
  sockets w' !! j = Some ws.
Proof.
  intros H Hj Hc. destruct ev as [cb | | i | i d | i | i | k | dt]; cbn in H.
  - injection H as <-. unfold subscribeToUpdates.
    destruct (url_ok w); cbn; [ | done ]. by apply lookup_app_l_Some.
  - injection H as <-. unfold disconnect.
    destruct (wsConnection w) as [i | ]; cbn; [ | done ].
    rewrite list_lookup_alter. case_decide; [subst i | done].
    rewrite Hj; cbn. unfold close. by rewrite Hc.
  - destruct (state_of w i) as [[] | ] eqn:Hst; try discriminate H.
    injection H as <-. cbn. rewrite list_lookup_alter_ne; [done | ].
    intros ->. apply state_of_Some in Hst as (ws' & Hi & Hrs). congruence.
  - destruct (state_of w i) as [[] | ] eqn:Hst; try discriminate H.
    injection H as <-. unfold onmessage. by repeat case_match.
  - destruct (state_of w i) as [[] | ] eqn:Hst; try discriminate H;
      by injection H as <-.
  - assert (Hne : i <> j).
    { intros ->. unfold state_of in H. rewrite Hj in H; cbn in H.
      by rewrite Hc in H. }
    assert (w' = onclose i w) as ->
      by (destruct (state_of w i) as [[] | ]; by simplify_eq).
    unfold onclose. destruct (sockets w !! i); cbn; [ | done ].
    by rewrite list_lookup_insert_ne.
  - destruct (timers w !! k) as [t | ] eqn:Hk; [ | done ].
    destruct (due t <=? clock w); [ | done ]. injection H as <-.
    unfold ontimeout; rewrite Hk. unfold subscribeToUpdates; cbn.
    destruct (url_ok w); cbn; [ | done ]. by apply lookup_app_l_Some.
  - destruct (0 <=? dt); [ | done ]. by injection H as <-.
Qed.

Lemma step_close w i w' :
  step w (Close i) = Some w' ->
  exists ws, sockets w !! i = Some ws /\ live ws = true /\ w' = onclose i w.
Proof.
  cbn. destruct (state_of w i) as [st | ] eqn:Hst; [ | done ].
  apply state_of_Some in Hst as (ws & Hi & Hrs). intros H. exists ws.
  unfold live. rewrite Hrs. destruct st; try discriminate H; by injection H as <-.
Qed.

Lemma step_timeout w k w' :
  step w (Timeout k) = Some w' ->
  exists t, timers w !! k = Some t /\ due t <= clock w /\ w' = ontimeout k w.
Proof.
  cbn. destruct (timers w !! k) as [t | ] eqn:Hk; [ | done ].
  destruct (due t <=? clock w) eqn:Hd; [ | done ]. intros [= <-].
  exists t. by apply Z.leb_le in Hd.
Qed.

Lemma step_timers w ev w' t :
  step w ev = Some w' -> t ∈ timers w' ->
  t ∈ timers w \/
  exists i ws, ev = Close i /\ sockets w !! i = Some ws /\
    t = mkTimer (clock w + reconnectDelay) (listener ws).
Proof.
  intros H Ht. destruct ev as [cb | | i | i d | i | i | k | dt].
  - cbn in H. injection H as <-. unfold subscribeToUpdates in Ht.
    destruct (url_ok w); auto.
  - cbn in H. injection H as <-. unfold disconnect in Ht.
    destruct (wsConnection w); auto.
  - cbn in H. destruct (state_of w i) as [[] | ]; try discriminate H.
    injection H as <-. auto.
  - cbn in H. destruct (state_of w i) as [[] | ]; try discriminate H.
    injection H as <-. unfold onmessage in Ht. repeat case_match; auto.
  - cbn in H. destruct (state_of w i) as [[] | ]; try discriminate H;
      injection H as <-; auto.
  - apply step_close in H as (ws & Hi & _ & ->). unfold onclose in Ht.
    rewrite Hi in Ht; cbn in Ht. apply elem_of_app in Ht as [Ht | Ht]; [auto | ].
    apply list_elem_of_singleton in Ht. right. eauto.
  - apply step_timeout in H as (t' & Hk & _ & ->). unfold ontimeout in Ht.
    rewrite Hk in Ht. unfold subscribeToUpdates in Ht; cbn in Ht.
    left. destruct (url_ok w); cbn in Ht; by apply list_elem_of_delete_inv in Ht.
  - cbn in H. destruct (0 <=? dt); [ | done ]. injection H as <-. auto.
Qed.

Lemma step_sockets_nonempty w ev w' :
  step w ev = Some w' -> url_ok w = false -> sockets w = [] -> sockets w' = [].
Proof.
  intros H Hurl Hs. destruct ev as [cb | | i | i d | i | i | k | dt]; cbn in H.
  - injection H as <-. unfold subscribeToUpdates. by rewrite Hurl.
  - injection H as <-. unfold disconnect.
    destruct (wsConnection w); cbn; by rewrite ?Hs.
  - unfold state_of in H. by rewrite Hs in H.
  - unfold state_of in H. by rewrite Hs in H.
  - unfold state_of in H. by rewrite Hs in H.
  - unfold state_of in H. by rewrite Hs in H.
  - apply step_timeout in H as (t & Hk & _ & ->). unfold ontimeout.
    rewrite Hk. unfold subscribeToUpdates; cbn. by rewrite Hurl.
  - destruct (0 <=? dt); [ | done ]. by injection H as <-.
Qed.

Lemma wf_fresh url now : wf (fresh url now).
Proof.
  split; cbn.
  - intros [H | H]; done.
  - intros t Ht. by apply elem_of_nil in Ht.
Qed.

Lemma step_wf w ev w' : wf w -> step w ev = Some w' -> wf w'.
Proof.
  intros [Hurl Htm] H. split.
  - intros Hne. rewrite (step_url_ok _ _ _ H).
    destruct (url_ok w) eqn:Eurl; [done | ].
    assert (Hs : sockets w = []).
    { destruct (sockets w) eqn:E; [done | ].
      assert (false = true) by (apply Hurl; by left). done. }
    assert (Ht : timers w = []).
    { destruct (timers w) eqn:E; [done | ].
      assert (false = true) by (apply Hurl; by right). done. }
    pose proof (step_sockets_nonempty _ _ _ H Eurl Hs) as Hs'.
    destruct Hne as [Hne | Hne]; [done | ].
    destruct (timers w') as [ | t ts] eqn:Et; [done | ].
    assert (Hin : t ∈ timers w') by (rewrite Et; left).
    destruct (step_timers _ _ _ _ H Hin) as [Hold | (i & ws & _ & Hi & _)].
    + rewrite Ht in Hold. by apply elem_of_nil in Hold.
    + by rewrite Hs in Hi.
  - intros t Ht.
    destruct (step_timers _ _ _ _ H Ht) as [Hold | (i & ws & -> & Hi & ->)].
    + destruct (Htm t Hold) as (j & ws & c & Hj & Hc & Hcl & Hdue & Hcb).
      exists j, ws, c. split; [ | done ]. by eapply step_closed_stays.
    + apply step_close in H as (ws' & Hi' & _ & ->).
      exists i, (mkWebSocket CLOSED (listener ws) (created ws) (Some (clock w))),
        (clock w).
      split; [ | done ]. unfold onclose; rewrite Hi; cbn.
      apply list_lookup_insert_eq. by eapply lookup_lt_Some.
Qed.

Lemma run_wf w evs w' : wf w -> run w evs = Some w' -> wf w'.
Proof.
  revert w. induction evs as [ | ev evs IH]; intros w Hw; cbn.
  - by intros [= <-].
  - destruct (step w ev) as [w1 | ] eqn:Hs; [ | done ].
    apply IH. by eapply step_wf.
Qed.

Lemma run_sustained w evs w' :
  run w evs = Some w' -> url_ok w = true ->
  (live_count w' + length (timers w') =
   live_count w + length (timers w) + length (List.filter is_subscribe evs))%nat.
Proof.
  revert w. induction evs as [ | ev evs IH]; intros w; cbn.
  - intros [= <-] _. lia.
  - destruct (step w ev) as [w1 | ] eqn:Hs; [ | done ]. intros Hr Hurl.
    pose proof (step_sustained _ _ _ Hs Hurl) as E1.
    assert (Hurl1 : url_ok w1 = true) by (by rewrite (step_url_ok _ _ _ Hs)).
    pose proof (IH _ Hr Hurl1) as E2.
    destruct (is_subscribe ev); cbn [length]; lia.
Qed.

Lemma step_sockets_length w ev w' :
  step w ev = Some w' ->
  length (sockets w') =
    (length (sockets w) +
     match ev with
     | Subscribe _ | Timeout _ => if url_ok w then 1 else 0
     | _ => 0
     end)%nat.
Proof.
  intros H. destruct ev as [cb | | i | i d | i | i | k | dt].
  - cbn in H. injection H as <-. unfold subscribeToUpdates.
    destruct (url_ok w); cbn; [ rewrite length_app; cbn | ]; lia.
  - cbn in H. injection H as <-. unfold disconnect.
    destruct (wsConnection w); cbn; rewrite ?length_alter; lia.
  - cbn in H. destruct (state_of w i) as [[] | ]; try discriminate H.
    injection H as <-. cbn. rewrite length_alter. lia.
  - cbn in H. destruct (state_of w i) as [[] | ]; try discriminate H.
    injection H as <-. unfold onmessage. repeat case_match; cbn; lia.
  - cbn in H. destruct (state_of w i) as [[] | ]; try discriminate H;
      injection H as <-; lia.
  - apply step_close in H as (ws & Hi & _ & ->). unfold onclose.
    rewrite Hi; cbn. rewrite length_insert. lia.
  - apply step_timeout in H as (t & Hk & _ & ->). unfold ontimeout.
    rewrite Hk. unfold subscribeToUpdates; cbn.
    destruct (url_ok w); cbn; [ rewrite length_app; cbn | ]; lia.
  - cbn in H. destruct (0 <=? dt); [ | done ]. injection H as <-. cbn. lia.
Qed.

Lemma step_keeps_sustained w ev w' :
  wf w -> sustained w -> step w ev = Some w' -> sustained w'.
Proof.
  intros [Hurl _] Hs H Hne.
  pose proof (step_sockets_length _ _ _ H) as Hlen.
  destruct (url_ok w) eqn:Eurl.
  - pose proof (step_sustained _ _ _ H Eurl) as E.
    destruct (sockets w) as [ | a l] eqn:Es.
    + destruct ev as [cb | | i | i d | i | i | k | dt]; cbn in E, Hlen;
        try (destruct (sockets w'); [done | cbn in Hlen; lia]).
      apply step_timeout in H as (t & Hk & _ & _).
      apply lookup_lt_Some in Hk. lia.
    + assert (0 < live_count w + length (timers w))%nat
        by (apply Hs; by rewrite Es).
      destruct (is_subscribe ev); lia.
  - destruct (sockets w) as [ | a l] eqn:Es.
    + destruct (sockets w'); [done | ].
      destruct ev; cbn in Hlen; lia.
    + assert (false = true) by (apply Hurl; by left). done.
Qed.

Lemma run_keeps_sustained w evs w' :
  wf w -> sustained w -> run w evs = Some w' -> sustained w'.
Proof.
  revert w. induction evs as [ | ev evs IH]; intros w Hw Hs; cbn.
  - by intros [= <-].
  - destruct (step w ev) as [w1 | ] eqn:H; [ | done ].
    apply IH; [by eapply step_wf | by eapply step_keeps_sustained].
Qed.

Lemma onclose_socket w i ws :
  sockets w !! i = Some ws ->
  onclose i w =
    {| wsConnection := wsConnection w;
       sockets :=
         <[i := mkWebSocket CLOSED (listener ws) (created ws) (Some (clock w))]>
           (sockets w);
       timers := timers w ++ [mkTimer (clock w + reconnectDelay) (listener ws)];
       clock := clock w; url_ok := url_ok w; effects := effects w |}.
Proof. intros Hi. unfold onclose. by rewrite Hi. Qed.

Lemma step_close_live w i ws :
  sockets w !! i = Some ws -> live ws = true ->
  step w (Close i) = Some (onclose i w).
Proof.
  intros Hi Hl. cbn. unfold state_of; rewrite Hi; cbn.
  unfold live in Hl. by destruct (readyState ws).
Qed.

(** One round of the loop, from a live socket: it closes, 5000 ms pass, the
    timer it set fires. *)
Lemma loop_round w i ws :
  url_ok w = true -> sockets w !! i = Some ws -> live ws = true ->
  exists w',
    run w [Close i; Elapse 5000; Timeout (length (timers w))] = Some w' /\
    sockets w' !! length (sockets w) =
      Some (mkWebSocket CONNECTING (listener ws) (clock w + 5000) None).
Proof.
  intros Eurl Hi Hl.
  set (w1 := onclose i w). set (w2 := elapse 5000 w1).
  assert (Ht : timers w2 !! length (timers w)
               = Some (mkTimer (clock w + 5000) (listener ws))).
  { unfold w2, w1. rewrite (onclose_socket _ _ _ Hi); cbn.
    rewrite lookup_app_r by done. by rewrite Nat.sub_diag. }
  assert (Hc : clock w2 = clock w + 5000).
  { unfold w2, w1. by rewrite (onclose_socket _ _ _ Hi). }
  assert (Hs : sockets w2 =
    <[i := mkWebSocket CLOSED (listener ws) (created ws) (Some (clock w))]>
      (sockets w)).
  { unfold w2, w1. by rewrite (onclose_socket _ _ _ Hi). }
  assert (Hu : url_ok w2 = true).
  { unfold w2, w1. by rewrite (onclose_socket _ _ _ Hi). }
  exists (ontimeout (length (timers w)) w2). split.
  - cbn [run]. rewrite (step_close_live _ _ _ Hi Hl). fold w1.
    change (step w1 (Elapse 5000)) with (Some w2).
    cbn [step]. rewrite Ht. cbn [due]. rewrite Hc.
    by rewrite (proj2 (Z.leb_le _ _) (Z.le_refl _)).
  - unfold ontimeout. rewrite Ht. unfold subscribeToUpdates; cbn [url_ok retry].
    rewrite Hu. cbn [sockets clock]. rewrite Hs, Hc.
    rewrite lookup_app_r; rewrite length_insert; [ | done ].
    by rewrite Nat.sub_diag.
Qed.

(** C8.  In every state [w] the adapter reaches from a fresh one,
    whatever the calls and events so far:
    - a close event on a socket sets exactly one timer, due 5000 ms after
      the close, carrying that socket's callback, and constructs no socket;
    - a timer cannot fire before it is due; when it fires, it is the timer
      of a socket closed at least 5000 ms earlier, and it calls
      [subscribeToUpdates] once with that socket's callback, which
      constructs exactly one socket, in state CONNECTING;
    - the delay is the constant 5000 in every such state: it does not grow
      with the number of reconnections, and nothing bounds them;
    - once a socket has been constructed, there is at any time a socket
      that is not closed or a pending reconnection; each call of
      [subscribeToUpdates] from outside accounts for exactly one of them;
    - and from any live socket the loop can go round once more: the close,
      5000 ms, the timer, a new socket. *)
Theorem reconnect_after_every_close (url : bool) (now : Z) (evs : list event)
    (w : World) (Hrun : run (fresh url now) evs = Some w) :
  (forall i w', step w (Close i) = Some w' ->
     exists ws, sockets w !! i = Some ws /\
       timers w' = timers w ++ [mkTimer (clock w + 5000) (listener ws)] /\
       length (sockets w') = length (sockets w) /\
       sockets w' !! i =
         Some (mkWebSocket CLOSED (listener ws) (created ws) (Some (clock w)))) /\
  (forall k t, timers w !! k = Some t -> clock w < due t ->
     step w (Timeout k) = None) /\
  (forall k w', step w (Timeout k) = Some w' ->
     exists t ws c, timers w !! k = Some t /\
       ws ∈ sockets w /\ readyState ws = CLOSED /\ closed ws = Some c /\
       listener ws = retry t /\ due t = c + 5000 /\ c + 5000 <= clock w /\
       timers w' = delete k (timers w) /\
       sockets w' =
         sockets w ++ [mkWebSocket CONNECTING (retry t) (clock w) None] /\
       wsConnection w' = Some (length (sockets w))) /\
  (sockets w <> [] -> (0 < live_count w + length (timers w))%nat) /\
  (url = true ->
     (live_count w + length (timers w)
      = length (List.filter is_subscribe evs))%nat) /\
  (forall i ws, sockets w !! i = Some ws -> live ws = true ->
     exists w', run w [Close i; Elapse 5000; Timeout (length (timers w))] = Some w' /\
       sockets w' !! length (sockets w) =
         Some (mkWebSocket CONNECTING (listener ws) (clock w + 5000) None)).
Proof.
  pose proof (run_wf _ _ _ (wf_fresh url now) Hrun) as [Hurl Htm].
  assert (Hu : url_ok w = url) by (by rewrite (run_url_ok _ _ _ Hrun)).
  split; [ | split; [ | split; [ | split; [ | split ] ] ] ].
  - intros i w' (ws & Hi & _ & ->)%step_close. exists ws.
    unfold onclose; rewrite Hi; cbn. repeat split; try done.
    + apply length_insert.
    + apply list_lookup_insert_eq. by eapply lookup_lt_Some.
  - intros k t Hk Hlt. cbn. rewrite Hk.
    destruct (due t <=? clock w) eqn:E; [ apply Z.leb_le in E; lia | done ].
  - intros k w' (t & Hk & Hdue & ->)%step_timeout.
    destruct (Htm t) as (j & ws & c & Hj & Hc & Hcl & Hd & Hcb).
    { by eapply list_elem_of_lookup_2. }
    assert (Eurl : url_ok w = true).
    { apply Hurl. right. intros E. by rewrite E in Hk. }
    exists t, ws, c. unfold ontimeout; rewrite Hk.
    unfold subscribeToUpdates; cbn. rewrite Eurl; cbn.
    unfold reconnectDelay in Hd.
    repeat split; try done; [ by eapply list_elem_of_lookup_2 | lia ].
  - eapply run_keeps_sustained; [apply wf_fresh | | exact Hrun]. by intros ?.
  - intros ->. pose proof (run_sustained _ _ _ Hrun eq_refl) as E.
    unfold live_count in E at 2. cbn in E. lia.
  - intros i ws Hi Hl.
    assert (Eurl : url_ok w = true).
    { apply Hurl. left. intros E. by rewrite E in Hi. }
    by apply (loop_round w i ws).
Qed.

Lemma reconnect_after_every_close_witness :
  exists w,
    run (fresh true 0) [Subscribe 7%nat; Open 0%nat; Close 0%nat] = Some w /\
    (live_count w + length (timers w) = 1)%nat /\
    step w (Timeout 0%nat) = None.
Proof.
  eexists. split; [reflexivity | ].
  split.
  - apply (proj1 (proj2 (proj2 (proj2 (proj2
      (reconnect_after_every_close true 0
         [Subscribe 7%nat; Open 0%nat; Close 0%nat] _ eq_refl))))) eq_refl).
  - apply (proj1 (proj2
      (reconnect_after_every_close true 0
         [Subscribe 7%nat; Open 0%nat; Close 0%nat] _ eq_refl))
      0%nat (mkTimer 5000 7%nat) eq_refl).
    cbn. lia.
Defined.

(** *** One subscription, one connection *)

Lemma same_but_state_refl a : same_but_state a a.
Proof. done. Qed.

Lemma step_quiet w ev w' :
  step w ev = Some w' -> quiet ev = true ->
  timers w' = timers w /\
  length (sockets w') = length (sockets w) /\
  forall j a, sockets w !! j = Some a ->
    exists a', sockets w' !! j = Some a' /\ same_but_state a a'.
Proof.
  intros H Hq. destruct ev as [cb | | i | i d | i | i | k | dt];
    try discriminate Hq; cbn in H.
  - injection H as <-. unfold disconnect.
    destruct (wsConnection w) as [i | ]; cbn.
    + split; [done | ]. split; [apply length_alter | ]. intros j a Hj.
      rewrite list_lookup_alter. case_decide; [subst j | exists a; by split].
      rewrite Hj; cbn. eexists; split; [done | ].
      unfold same_but_state, close.
      destruct (readyState a) eqn:E; cbn; rewrite ?E; done.
    + split; [done | ]. split; [done | ]. intros j' s0 Hj'; exists s0; by split.
  - destruct (state_of w i) as [[] | ] eqn:Hst; try discriminate H.
    injection H as <-. cbn. split; [done | ]. split; [apply length_alter | ].
    apply state_of_Some in Hst as (ws & Hi & Hrs). intros j a Hj.
    rewrite list_lookup_alter. case_decide; [subst j | exists a; by split].
    rewrite Hj; cbn. eexists; split; [done | ].
    assert (a = ws) as -> by congruence.
    unfold same_but_state; cbn. by rewrite Hrs.
  - destruct (state_of w i) as [[] | ] eqn:Hst; try discriminate H.
    injection H as <-. unfold onmessage.
    repeat case_match; cbn; (split; [done | ]; split; [done | ]; intros j' s0 Hj'; exists s0; by split).
  - destruct (state_of w i) as [[] | ] eqn:Hst; try discriminate H;
      injection H as <-; (split; [done | ]; split; [done | ]; intros j' s0 Hj'; exists s0; by split).
  - destruct (0 <=? dt); [ | done ]. injection H as <-. cbn.
    split; [done | ]. split; [done | ]. intros j' s0 Hj'; exists s0; by split.
Qed.

Lemma wf_no_url w :
  wf w -> url_ok w = false -> sockets w = [] /\ timers w = [].
Proof.
  intros [Hurl _] E. split.
  - destruct (sockets w) eqn:Es; [done | ].
    assert (url_ok w = true) by (apply Hurl; by left). congruence.
  - destruct (timers w) eqn:Et; [done | ].
    assert (url_ok w = true) by (apply Hurl; by right). congruence.
Qed.

Lemma single_empty w : sockets w = [] -> timers w = [] -> single w.
Proof.
  intros Hs Ht. unfold single, chain, timers_of_last, live_count.
  rewrite Hs, Ht. split; [cbn; lia | ]. split.
  - intros i a b Hi. by rewrite lookup_nil in Hi.
  - intros t Hin. by apply elem_of_nil in Hin.
Qed.

Lemma chain_closed_before w i a :
  chain w -> sockets w !! i = Some a -> (S i < length (sockets w))%nat ->
  readyState a = CLOSED.
Proof.
  intros Hch Hi Hlt. destruct (lookup_lt_is_Some_2 _ _ Hlt) as [b Hb].
  by destruct (Hch i a b Hi Hb) as (c & ? & _).
Qed.

Lemma step_single_quiet w ev w' :
  single w -> step w ev = Some w' -> quiet ev = true ->
  chain w' /\ timers_of_last w'.
Proof.
  intros (_ & Hch & Htl) H Hq.
  destruct (step_quiet _ _ _ H Hq) as (Ht & Hlen & Hso). split.
  - intros i a' b' Ha' Hb'.
    destruct (lookup_lt_is_Some_2 (sockets w) i) as [a Ha].
    { rewrite <- Hlen. by eapply lookup_lt_Some. }
    destruct (lookup_lt_is_Some_2 (sockets w) (S i)) as [b Hb].
    { rewrite <- Hlen. by eapply lookup_lt_Some. }
    destruct (Hso _ _ Ha) as (a2 & Ha2 & _ & _ & Hfix).
    destruct (Hso _ _ Hb) as (b2 & Hb2 & Hcr & _).
    assert (a2 = a') as -> by congruence. assert (b2 = b') as -> by congruence.
    destruct (Hch i a b Ha Hb) as (c & Hc & Hcl & Hle).
    rewrite (Hfix Hc). exists c. by rewrite Hcr.
  - intros t Hin. rewrite Ht in Hin.
    destruct (Htl t Hin) as (a & c & Hl & Hc & Hcl & Hd).
    exists a, c. split; [ | done ].
    rewrite last_lookup in Hl |- *. rewrite Hlen.
    destruct (Hso _ _ Hl) as (a' & Ha' & _ & _ & Hfix).
    by rewrite Ha', (Hfix Hc).
Qed.

Lemma step_single_close w i w' :
  single w -> step w (Close i) = Some w' -> chain w' /\ timers_of_last w'.
Proof.
  intros (_ & Hch & Htl) (ws & Hi & Hl & ->)%step_close.
  assert (Hrs : readyState ws <> CLOSED).
  { intros E. unfold live in Hl. by rewrite E in Hl. }
  assert (Hlast : length (sockets w) = S i).
  { pose proof (lookup_lt_Some _ _ _ Hi).
    destruct (decide (S i < length (sockets w))%nat) as [Hlt | ]; [ | lia ].
    by pose proof (chain_closed_before _ _ _ Hch Hi Hlt). }
  assert (Hnt : timers w = []).
  { destruct (timers w) as [ | t ts] eqn:Et; [done | ].
    destruct (Htl t) as (a & c & Ha & Hc & _); [rewrite Et; left | ].
    rewrite last_lookup, Hlast in Ha. cbn in Ha. congruence. }
  rewrite (onclose_socket _ _ _ Hi). split.
  - intros x a b Ha Hb. cbn in Ha, Hb.
    assert (Hx : (S x < S i)%nat).
    { apply lookup_lt_Some in Hb. rewrite length_insert in Hb. lia. }
    rewrite list_lookup_insert_ne in Ha by lia.
    destruct (decide (S x = i)) as [<- | Hne].
    + rewrite list_lookup_insert_eq in Hb by lia. injection Hb as <-.
      destruct (Hch x a ws Ha Hi) as (c & ? & ? & ?). by exists c.
    + rewrite list_lookup_insert_ne in Hb by done. by apply (Hch x a b).
  - intros t Hin. cbn in Hin. rewrite Hnt in Hin. cbn in Hin.
    apply list_elem_of_singleton in Hin as ->. cbn [sockets due].
    exists (mkWebSocket CLOSED (listener ws) (created ws) (Some (clock w))),
      (clock w).
    split; [ | done ].
    rewrite last_lookup, length_insert, Hlast. cbn [pred].
    apply list_lookup_insert_eq. lia.
Qed.

Lemma step_single_timeout w k w' :
  url_ok w = true -> single w -> step w (Timeout k) = Some w' ->
  chain w' /\ timers_of_last w'.
Proof.
  intros Eurl (Hcnt & Hch & Htl) (t & Hk & Hdue & ->)%step_timeout.
  destruct (Htl t) as (a & c & Ha & Hc & Hcl & Hd).
  { by eapply list_elem_of_lookup_2. }
  assert (Hone : delete k (timers w) = []).
  { pose proof (lookup_lt_Some _ _ _ Hk) as Hlt.
    apply length_zero_iff_nil.
    rewrite length_delete by (by rewrite Hk). lia. }
  unfold ontimeout; rewrite Hk. unfold subscribeToUpdates; cbn [url_ok retry].
  rewrite Eurl. split.
  - intros x u v Hu Hv. cbn in Hu, Hv.
    destruct (decide (S x < length (sockets w))%nat) as [Hlt | Hge].
    + rewrite lookup_app_l in Hu by lia. rewrite lookup_app_l in Hv by lia.
      by apply (Hch x u v).
    + assert (Hx : S x = length (sockets w)).
      { apply lookup_lt_Some in Hv. rewrite length_app in Hv. cbn in Hv. lia. }
      rewrite lookup_app_l in Hu by lia.
      rewrite lookup_app_r in Hv by lia.
      rewrite Hx, Nat.sub_diag in Hv. injection Hv as <-.
      rewrite last_lookup, <- Hx in Ha. cbn in Ha.
      assert (u = a) as -> by congruence.
      exists c. cbn. split; [done | ]. split; [done | ]. lia.
  - intros t' Hin. cbn in Hin. rewrite Hone in Hin. by apply elem_of_nil in Hin.
Qed.

Lemma step_single w ev w' :
  wf w -> single w -> step w ev = Some w' -> is_subscribe ev = false ->
  single w'.
Proof.
  intros Hwf Hs H Hns. destruct (url_ok w) eqn:Eurl.
  - assert (Hcnt : (live_count w' + length (timers w') <= 1)%nat).
    { pose proof (step_sustained _ _ _ H Eurl) as E. rewrite Hns in E.
      destruct Hs as [Hc _]. lia. }
    split; [exact Hcnt | ].
    destruct ev as [cb | | i | i d | i | i | k | dt]; try discriminate Hns.
    + by apply (step_single_quiet w Disconnect).
    + by apply (step_single_quiet w (Open i)).
    + by apply (step_single_quiet w (Message i d)).
    + by apply (step_single_quiet w (Fault i)).
    + by apply (step_single_close w i).
    + by apply (step_single_timeout w k).
    + by apply (step_single_quiet w (Elapse dt)).
  - destruct (wf_no_url _ Hwf Eurl) as [Hso Hti]. apply single_empty.
    + by eapply step_sockets_nonempty.
    + destruct (timers w') as [ | t ts] eqn:Et; [done | ].
      assert (Hin : t ∈ timers w') by (rewrite Et; left).
      destruct (step_timers _ _ _ _ H Hin) as [Hold | (i & ws & _ & Hi & _)].
      * rewrite Hti in Hold. by apply elem_of_nil in Hold.
      * by rewrite Hso in Hi.
Qed.

Lemma run_single w evs w' :
  wf w -> single w -> forallb (fun ev => negb (is_subscribe ev)) evs = true ->
  run w evs = Some w' -> single w'.
Proof.
  revert w. induction evs as [ | ev evs IH]; intros w Hwf Hs Hall; cbn.
  - by intros [= <-].
  - cbn in Hall. apply andb_true_iff in Hall as [Hev Hall].
    apply negb_true_iff in Hev.
    destruct (step w ev) as [w1 | ] eqn:H; [ | done ].
    apply IH; [by eapply step_wf | by eapply step_single | done].
Qed.

Lemma single_subscribed url now cb : single (subscribeToUpdates cb (fresh url now)).
Proof.
  unfold subscribeToUpdates. destruct url; cbn; [ | by apply single_empty ].
  split; [cbn; lia | ]. split.
  - intros i a b Ha Hb. destruct i; done.
  - intros t Hin. by apply elem_of_nil in Hin.
Qed.

(** C1, as stated, fails: [subscribeToUpdates] does not look at the
    connection it already has.  Called twice, it leaves two sockets open at
    once, the second constructed while the first is still connecting, with
    no close and no delay in between. *)
Lemma two_subscriptions_overlap :
  exists w,
    run (fresh true 0) [Subscribe 7%nat; Subscribe 7%nat; Open 0%nat; Open 1%nat]
      = Some w /\
    live_count w = 2%nat /\
    state_of w 0%nat = Some OPEN /\ state_of w 1%nat = Some OPEN /\
    ~ (live_count w <= 1)%nat.
Proof.
  eexists. split; [reflexivity | ]. cbn.
  split; [reflexivity | ]. split; [reflexivity | ]. split; [reflexivity | ].
  unfold live_count; cbn. lia.
Qed.

(** C1, amended.  For an adapter on which [subscribeToUpdates] is called
    once, first, and then never again from outside: under any sequence of
    socket events, timer firings, [disconnect] calls and passing time, at
    most one socket is not closed, and a reconnection is pending only while
    none is; every socket after the first was constructed at least 5000 ms
    after the socket before it had closed.  ([disconnect] leaves the pending
    timer in place.) *)
Theorem one_subscription_one_connection (url : bool) (now : Z) (cb : callback)
    (evs : list event) (w : World)
    (Honce : forallb (fun ev => negb (is_subscribe ev)) evs = true)
    (Hrun : run (fresh url now) (Subscribe cb :: evs) = Some w) :
  (live_count w <= 1)%nat /\
  (live_count w + length (timers w) <= 1)%nat /\
  (forall i a b, sockets w !! i = Some a -> sockets w !! S i = Some b ->
     exists c, readyState a = CLOSED /\ closed a = Some c /\
       c + 5000 <= created b) /\
  timers (disconnect w) = timers w.
Proof.
  cbn [run step] in Hrun.
  assert (Hwf : wf (subscribeToUpdates cb (fresh url now))).
  { apply (step_wf (fresh url now) (Subscribe cb)); [apply wf_fresh | done]. }
  destruct (run_single _ _ _ Hwf (single_subscribed url now cb) Honce Hrun)
    as (Hcnt & Hch & _).
  split; [lia | ]. split; [exact Hcnt | ]. split; [exact Hch | ].
  unfold disconnect. by destruct (wsConnection w).
Qed.

Lemma one_subscription_one_connection_witness :
  exists w,
    run (fresh true 0)
      [Subscribe 7%nat; Open 0%nat; Close 0%nat; Disconnect; Elapse 5000;
       Timeout 0%nat; Open 1%nat] = Some w /\
    (live_count w <= 1)%nat /\
    state_of w 0%nat = Some CLOSED /\ state_of w 1%nat = Some OPEN.
Proof.
  eexists. split; [reflexivity | ]. split.
  - apply (one_subscription_one_connection true 0 7%nat
      [Open 0%nat; Close 0%nat; Disconnect; Elapse 5000; Timeout 0%nat; Open 1%nat]
      _ eq_refl eq_refl).
  - split; reflexivity.
Defined.


(** * Further properties of the two clients *)

(** ** The rate adapter: what the fallbacks are *)

Lemma returns_try_catch {A} (r : result A) (h : exn -> result A) :
  (forall e, returns (h e)) -> returns (try_catch r h).
Proof. intros Hh. destruct r; [done | apply Hh]. Qed.

(** X1.  [getYieldUnits] never raises.  When its request fails it resolves
    to two units, "yu-btc-001" on BTC and "yu-eth-001" on ETH, each maturing
    30 days after the clock reading taken for it; and the current rate of
    each unit is the rate the other fallbacks use for its asset: the entry
    of the fallback funding rates and the base rate of the synthetic
    history. *)
Theorem getYieldUnits_fail_soft (t1 t2 : Z) (o : fetched) :
  returns (getYieldUnits t1 t2 o) /\
  (request_fails o ->
   exists btc eth,
     getYieldUnits t1 t2 o = Return (Units [btc; eth]) /\
     BorosClient.id btc = "yu-btc-001" /\ BorosClient.id eth = "yu-eth-001" /\
     asset btc = "BTC" /\ asset eth = "ETH" /\
     maturity btc = t1 + 30 * msPerDay /\ maturity eth = t2 + 30 * msPerDay /\
     (forall u, u ∈ [btc; eth] ->
        Double.of_number (currentRate u) = baseRate (asset u) /\
        field mockFundingRates (asset u) = Some (JNumber (currentRate u)))).
Proof.
  split; [ by apply returns_try_catch | ].
  intros H. eexists _, _. split.
  { on_failure o H; reflexivity. }
  do 6 (split; [reflexivity | ]).
  intros u [-> | ->%list_elem_of_singleton]%elem_of_cons; split; reflexivity.
Qed.

Lemma getYieldUnits_fail_soft_witness :
  exists btc eth,
    getYieldUnits 1700000000000 1700000000001
      (Rejected (mkExn "TypeError" "Failed to fetch"))
      = Return (Units [btc; eth]) /\
    maturity btc = 1702592000000 /\ maturity eth = 1702592000001.
Proof.
  destruct (proj2 (getYieldUnits_fail_soft 1700000000000 1700000000001
              (Rejected (mkExn "TypeError" "Failed to fetch"))) I)
    as (btc & eth & Hret & _ & _ & _ & _ & Hb & He & _).
  exists btc, eth. split; [exact Hret | ]. split; [exact Hb | exact He].
Defined.

(** X2.  [getPositions] never raises, and its fallback is the empty
    sequence: a failed request, a body that is [null] and a success whose
    body has no [positions] all resolve to the same empty array. *)
Theorem getPositions_fail_soft (user : string) (o : fetched) :
  returns (getPositions user o) /\
  (request_fails o -> getPositions user o = Return (JArray [])) /\
  (success_with o JNull -> getPositions user o = Return (JArray [])) /\
  (forall data, success_with o data -> lacks data "positions" ->
     getPositions user o = Return (JArray [])).
Proof.
  split; [ by apply returns_try_catch | ]. split; [ | split ].
  - intros H. on_failure o H; reflexivity.
  - intros H. on_success H. reflexivity.
  - intros data H Hl. on_success H. unfold lacks in Hl.
    destruct data; cbn in *; by rewrite ?Hl.
Qed.



(** ** The venue adapter: failures and edge cases of the REST methods *)

(** X4.  [getMarketMeta] has no fallback.  A rejected request and a parse
    error reach the caller unchanged, a status outside 200-299 as the
    "HTTP error! status: ..." error, a body that is [null] as a [TypeError];
    on any other success the method returns the [universe] of the body, or
    the empty array when that field is absent or falsy: an empty list is not
    a failure. *)
Theorem getMarketMeta_fails_loud (o : fetched) :
  (forall e, o = Rejected e -> getMarketMeta o = Throw e) /\
  (forall r, o = Resolved r -> ok r = false ->
     getMarketMeta o = Throw (http_error r)) /\
  (forall r e, o = Resolved r -> ok r = true -> payload r = Malformed e ->
     getMarketMeta o = Throw e) /\
  (success_with o JNull -> getMarketMeta o = Throw (TypeError_null "universe")) /\
  (forall data, success_with o data -> data <> JNull ->
     getMarketMeta o = Return (or_else (field data "universe") (JArray []))) /\
  (forall data, success_with o data -> data <> JNull -> lacks data "universe" ->
     getMarketMeta o = Return (JArray [])) /\
  (forall v, getMarketMeta o = Return v ->
     exists data, success_with o data /\ data <> JNull).
Proof.
  assert (Hgood : forall data, success_with o data -> data <> JNull ->
    getMarketMeta o = Return (or_else (field data "universe") (JArray []))).
  { intros data H Hnn. on_success H. by rewrite get_not_null. }
  repeat split.
  - by intros e ->.
  - intros r -> Hr. unfold getMarketMeta; cbn. by rewrite Hr.
  - intros r e -> Hr Hb. unfold getMarketMeta, json_of; cbn. by rewrite Hr, Hb.
  - intros H. on_success H. reflexivity.
  - exact Hgood.
  - intros data H Hnn Hl. rewrite (Hgood data H Hnn). unfold lacks in Hl.
    by rewrite Hl.
  - intros v. unfold getMarketMeta.
    destruct o as [e | [st [data | e]]]; cbn; [done | | ].
    + destruct (ok _) eqn:Hok'; cbn; [ | done ]. apply ok_status in Hok'.
      destruct data; cbn; try done; intros _;
        (eexists; split; [ exists st; split; [reflexivity | lia] | done ]).
    + destruct (ok _); cbn; done.
Qed.


Lemma index_key_inj i j : index_key i = index_key j -> i = j.
Proof.
  unfold index_key, digits_of_N. intros H.
  assert (Hnn : forall n, N.to_uint n <> Decimal.Nil).
  { intros n E. pose proof (DecimalN.Unsigned.of_to n) as Hn.
    rewrite E in Hn. cbn in Hn. subst n. discriminate E. }
  assert (E : Some (N.to_uint (N.of_nat i)) = Some (N.to_uint (N.of_nat j))).
  { rewrite <- (NilZero.usu _ (Hnn (N.of_nat i))),
            <- (NilZero.usu _ (Hnn (N.of_nat j))). by rewrite H. }
  injection E as E. apply Nat2N.inj.
  by rewrite <- (DecimalN.Unsigned.of_to (N.of_nat i)),
             <- (DecimalN.Unsigned.of_to (N.of_nat j)), E.
Qed.

Lemma index_key_not_proto i : index_key i <> "__proto__".
Proof.
  unfold index_key, digits_of_N. intros H.
  assert (Hnn : N.to_uint (N.of_nat i) <> Decimal.Nil).
  { intros E. pose proof (DecimalN.Unsigned.of_to (N.of_nat i)) as Hn.
    rewrite E in Hn. cbn in Hn. rewrite <- Hn in E. discriminate E. }
  pose proof (NilZero.usu _ Hnn) as E. rewrite H in E. discriminate E.
Qed.

Lemma items_from_keys n l k :
  k ∈ (items_from n l).*1 -> exists i, k = index_key i /\ (n <= i)%nat.
Proof.
  revert n. induction l as [ | x l IH]; intros n; cbn.
  - by intros ?%elem_of_nil.
  - intros [-> | H]%elem_of_cons; [ by exists n | ].
    destruct (IH _ H) as (i & -> & Hi). exists i. split; [done | lia].
Qed.

Lemma items_from_NoDup n l : NoDup (items_from n l).*1.
Proof.
  revert n. induction l as [ | x l IH]; intros n; cbn; [constructor | ].
  constructor; [ | apply IH ].
  intros (i & E & Hi)%items_from_keys. apply index_key_inj in E. lia.
Qed.

Lemma items_from_lookup n l i :
  (list_to_map (items_from n l) : gmap string json) !! index_key (n + i)
    = l !! i.
Proof.
  revert n i. induction l as [ | x l IH]; intros n i; cbn; [done | ].
  destruct i as [ | i].
  - by rewrite Nat.add_0_r, lookup_insert_eq.
  - rewrite lookup_insert_ne.
    + rewrite <- Nat.add_succ_comm. apply IH.
    + intros E%index_key_inj. lia.
Qed.

(** X5.  [getAllMidPrices] has no fallback either: a rejected request and
    a parse error reach the caller unchanged, a status outside 200-299 as
    the "HTTP error! status: ..." error.  A body that is [null] makes
    [Object.entries] throw a [TypeError]; a body that is a number or a
    boolean has no entries and gives the empty mapping, without an error;
    a body that is an array is read like an object whose keys are the
    decimal indices: the string elements are parsed under their index. *)
Theorem getAllMidPrices_edges (o : fetched) :
  (forall e, o = Rejected e -> getAllMidPrices o = Throw e) /\
  (forall r, o = Resolved r -> ok r = false ->
     getAllMidPrices o = Throw (http_error r)) /\
  (forall r e, o = Resolved r -> ok r = true -> payload r = Malformed e ->
     getAllMidPrices o = Throw e) /\
  (success_with o JNull -> getAllMidPrices o = Throw TypeError_not_object) /\
  (forall x, success_with o (JNumber x) -> getAllMidPrices o = Return ∅) /\
  (forall b, success_with o (JBool b) -> getAllMidPrices o = Return ∅) /\
  (forall l, success_with o (JArray l) ->
     exists prices, getAllMidPrices o = Return prices /\
       (forall i, prices !! index_key i = l !! i ≫= price_of) /\
       (forall k, (forall i, k <> index_key i) -> prices !! k = None)) /\
  (forall prices, getAllMidPrices o = Return prices ->
     exists data, success_with o data /\ data <> JNull).
Proof.
  split; [ | split; [ | split; [ | split; [ | split; [ | split; [ | split ] ] ] ] ] ].
  - by intros e ->.
  - intros r -> Hr. unfold getAllMidPrices; cbn. by rewrite Hr.
  - intros r e -> Hr Hb. unfold getAllMidPrices, json_of; cbn. by rewrite Hr, Hb.
  - intros H. on_success H. reflexivity.
  - intros x H. on_success H. reflexivity.
  - intros b H. on_success H. reflexivity.
  - intros l H. eexists. split; [ on_success H; reflexivity | ].
    split.
    + intros i. rewrite foldl_record_price_lookup by apply items_from_NoDup.
      pose proof (items_from_lookup 0 l i) as E.
      change (0 + i)%nat with i in E. rewrite E, lookup_empty.
      destruct (l !! i) as [v | ]; cbn; [ | done ].
      rewrite price_at_other by apply index_key_not_proto.
      by destruct (price_of v).
    + intros k Hk. rewrite foldl_record_price_lookup by apply items_from_NoDup.
      rewrite (not_elem_of_list_to_map_1 (M:=gmap string)); [done | ].
      intros (i & -> & _)%items_from_keys. by apply (Hk i).
  - intros v. unfold getAllMidPrices.
    destruct o as [e | [st [data | e]]]; cbn; [done | | ].
    + destruct (ok _) eqn:Hok'; cbn; [ | done ]. apply ok_status in Hok'.
      destruct data; cbn; try done; intros _;
        (eexists; split; [ exists st; split; [reflexivity | lia] | done ]).
    + destruct (ok _); cbn; done.
Qed.


(** *** [getOrderBook] on any body *)

Lemma parse_level_not_null level :
  level <> JNull -> exists p, parse_level level = Return p.
Proof.
  intros Hnn. unfold parse_level. rewrite !get_not_null by done. cbn. eauto.
Qed.

Lemma mapM_parse_level_null l :
  JNull ∈ l -> mapM parse_level l = Throw (TypeError_null "px").
Proof.
  induction l as [ | x l IH]; [ by intros ?%elem_of_nil | ].
  intros Hin. cbn [mapM]. destruct x; try reflexivity;
    (apply elem_of_cons in Hin as [Hx | Hin]; [discriminate Hx | ];
     rewrite (IH Hin);
     match goal with
     | |- context [parse_level ?v] =>
         destruct (parse_level_not_null v) as [p ->]; [done | reflexivity]
     end).
Qed.

Lemma mapM_parse_level_ok l :
  JNull ∉ l ->
  exists ps, mapM parse_level l = Return ps /\ length ps = length l.
Proof.
  induction l as [ | x l IH]; intros Hnn; [ by exists [] | ].
  apply not_elem_of_cons in Hnn as [Hx Hl].
  destruct (IH Hl) as (ps & Hps & Hlen).
  destruct (parse_level_not_null x) as [p Hp]; [done | ].
  exists (p :: ps). cbn [mapM]. rewrite Hp; cbn. rewrite Hps; cbn.
  split; [done | by rewrite Hlen].
Qed.

Lemma mapM_parse_level_length l ps :
  mapM parse_level l = Return ps -> length ps = length l.
Proof.
  revert ps. induction l as [ | x l IH]; intros ps; cbn [mapM].
  - by intros [= <-].
  - destruct (parse_level x) as [p | e]; cbn; [ | done ].
    destruct (mapM parse_level l) as [qs | e]; cbn; [ | done ].
    intros [= <-]. cbn. by rewrite (IH qs).
Qed.

Lemma getOrderBook_levels_map coin now o data :
  success_with o data ->
  getOrderBook coin now o =
    match levels_map data with
    | Return parsed => Return (book_of now parsed)
    | Throw e => Throw e
    end.
Proof.
  intros H. on_success H. by destruct (levels_map data).
Qed.

Lemma getOrderBook_Return coin now o book :
  getOrderBook coin now o = Return book ->
  exists data parsed,
    success_with o data /\ levels_map data = Return parsed /\
    book = book_of now parsed.
Proof.
  unfold getOrderBook. destruct o as [e | [st [data | e]]]; cbn; [done | | ].
  - destruct (ok _) eqn:Hok; cbn; [ | done ]. apply ok_status in Hok.
    destruct (levels_map data) as [parsed | e] eqn:Hl; cbn; [ | done ].
    intros [= <-]. exists data, parsed.
    split; [ exists st; split; [reflexivity | lia] | done ].
  - destruct (ok _); cbn; done.
Qed.

Lemma positive_not_negative x : gtb x zero = true -> Num.ltb x zero = false.
Proof.
  destruct x as [ | [] | m k]; try done.
  unfold gtb, Num.ltb, zero. rewrite Z.ltb_lt, Z.ltb_ge.
  change (pow10 0) with 1. lia.
Qed.

Lemma abs_negative_positive x : Num.ltb x zero = true -> gtb (abs x) zero = true.
Proof.
  destruct x as [ | [] | m k]; try done.
  unfold gtb, abs, Num.ltb, zero. rewrite !Z.ltb_lt.
  change (pow10 0) with 1. lia.
Qed.

Lemma filter_sides (l : list (number * number)) :
  (length (List.filter (fun level => gtb level.2 zero) l) +
   length (List.filter (fun level => Num.ltb level.2 zero) l) <= length l)%nat.
Proof.
  induction l as [ | p l IH]; [cbn; lia | ].
  cbn [List.filter]. destruct (gtb p.2 zero) eqn:Hg.
  - rewrite (positive_not_negative _ Hg). cbn [length]. lia.
  - destruct (Num.ltb p.2 zero); cbn [length]; lia.
Qed.


(** X7.  Whatever the body, a book that [getOrderBook] returns is sign
    normalised: every bid and every ask has a size strictly above zero (a
    level whose size is zero or does not parse is on neither side), the
    timestamp is the clock reading, and the two sides together are no
    longer than the [levels] array they come from. *)
Theorem getOrderBook_sizes_positive (coin : string) (now : Z) (o : fetched)
    (book : OrderBook) (Hbook : getOrderBook coin now o = Return book) :
  Forall (fun level : number * number => gtb level.2 zero = true) (bids book) /\
  Forall (fun level : number * number => gtb level.2 zero = true) (asks book) /\
  book_timestamp book = now /\
  (forall data l, success_with o data -> field data "levels" = Some (JArray l) ->
     (length (bids book) + length (asks book) <= length l)%nat).
Proof.
  pose proof Hbook as Hb.
  apply getOrderBook_Return in Hb as (data & parsed & Hs & Hl & ->).
  split; [ | split; [ | split ] ].
  - destruct parsed as [ps | ]; cbn; [ | constructor ].
    apply Forall_forall. intros p Hp%list_elem_of_In%List.filter_In. tauto.
  - destruct parsed as [ps | ]; cbn; [ | constructor ].
    apply Forall_forall. intros p Hp%list_elem_of_In%List.in_map_iff.
    destruct Hp as (q & <- & Hq%List.filter_In). cbn.
    apply abs_negative_positive. tauto.
  - reflexivity.
  - intros data' l (st' & E' & _) Hf.
    destruct Hs as (st & E & _). rewrite E in E'. injection E' as _ <-.
    unfold levels_map in Hl.
    rewrite get_not_null in Hl by (intros ->; discriminate Hf).
    cbn in Hl. rewrite Hf in Hl.
    destruct (mapM parse_level l) as [ps | e] eqn:Hps; cbn in Hl; [ | done ].
    injection Hl as <-. cbn.
    rewrite length_map, <- (mapM_parse_level_length _ _ Hps).
    apply filter_sides.
Qed.

Lemma getOrderBook_sizes_positive_witness :
  exists book,
    getOrderBook "HYPE" 1700000000000
      (Resolved (mkResponse 200 (Parsed (JObject (<["levels" :=
         JArray [level_json (mkRawLevel "10" "5");
                 level_json (mkRawLevel "9" "-3");
                 level_json (mkRawLevel "8" "0")]]> ∅)))))
      = Return book /\
    Forall (fun level : number * number => gtb level.2 zero = true) (asks book) /\
    (length (bids book) + length (asks book))%nat = 2%nat.
Proof.
  eexists. split; [reflexivity | ]. split; [ | reflexivity ].
  refine (proj1 (proj2 (getOrderBook_sizes_positive "HYPE" 1700000000000
    (Resolved (mkResponse 200 (Parsed (JObject (<["levels" :=
         JArray [level_json (mkRawLevel "10" "5");
                 level_json (mkRawLevel "9" "-3");
                 level_json (mkRawLevel "8" "0")]]> ∅))))) _ eq_refl))).
Defined.


(** ** The subscription: more of the transition system *)

Lemma step_inert w ev w' : inert w -> step w ev = Some w' -> inert w'.
Proof.
  intros (Hu & Hc & Hs & Ht & He) H.
  destruct ev as [cb | | i | i d | i | i | k | dt]; cbn in H.
  - injection H as <-. unfold subscribeToUpdates. by rewrite Hu.
  - injection H as <-. unfold disconnect. by rewrite Hc.
  - unfold state_of in H. by rewrite Hs in H.
  - unfold state_of in H. by rewrite Hs in H.
  - unfold state_of in H. by rewrite Hs in H.
  - unfold state_of in H. by rewrite Hs in H.
  - by rewrite Ht in H.
  - destruct (0 <=? dt); [ | done ]. by injection H as <-.
Qed.

Lemma run_inert w evs w' : inert w -> run w evs = Some w' -> inert w'.
Proof.
  revert w. induction evs as [ | ev evs IH]; intros w Hw; cbn.
  - by intros [= <-].
  - destruct (step w ev) as [w1 | ] eqn:H; [ | done ].
    apply IH. by eapply step_inert.
Qed.

(** X8.  When the constructor rejects the WebSocket URL,
    [subscribeToUpdates] swallows the error and nothing is retried: whatever
    the calls and the passing of time, the adapter never has a socket, a
    timer or a reference, it calls no callback and sends nothing,
    [isConnected] stays false, and no socket event or timer can occur. *)
Theorem rejected_url_is_inert (now : Z) (evs : list event) (w : World)
    (Hrun : run (fresh false now) evs = Some w) :
  sockets w = [] /\ timers w = [] /\ effects w = [] /\
  wsConnection w = None /\ isConnected w = false /\
  (forall cb, step w (Subscribe cb) = Some w) /\
  (forall ev, quiet ev = false -> is_subscribe ev = false -> step w ev = None).
Proof.
  assert (Hi : inert w) by (eapply run_inert; [ | exact Hrun ]; done).
  destruct Hi as (Hu & Hc & Hs & Ht & He).
  repeat split; try done.
  - unfold isConnected. by rewrite Hc.
  - intros cb. cbn. unfold subscribeToUpdates. by rewrite Hu.
  - intros ev Hq Hn. destruct ev; try discriminate Hq; try discriminate Hn; cbn.
    + unfold state_of. by rewrite Hs.
    + by rewrite Ht.
Qed.

Lemma rejected_url_is_inert_witness :
  exists w,
    run (fresh false 0) [Subscribe 7%nat; Elapse 5000; Disconnect; Subscribe 7%nat]
      = Some w /\
    sockets w = [] /\ timers w = [].
Proof.
  eexists. split; [reflexivity | ].
  pose proof (rejected_url_is_inert 0
    [Subscribe 7%nat; Elapse 5000; Disconnect; Subscribe 7%nat] _ eq_refl)
    as (Hs & Ht & _).
  split; [exact Hs | exact Ht].
Defined.

Lemma ref_ok_fresh url now : ref_ok (fresh url now).
Proof. split; cbn; [done | ]. intros _ a Ha. done. Qed.

Lemma last_alter {A} (f : A -> A) i (l : list A) :
  last (alter f i l) = (if decide (S i = length l) then f else fun x => x) <$> last l.
Proof.
  rewrite !last_lookup, length_alter.
  destruct (decide (S i = length l)) as [E | E].
  - rewrite <- E. cbn. by rewrite list_lookup_alter_eq.
  - destruct l as [ | a l]; [done | ]. cbn [length pred] in *.
    rewrite list_lookup_alter_ne by lia. by destruct (_ !! _).
Qed.

Lemma step_ref_ok w ev w' : ref_ok w -> step w ev = Some w' -> ref_ok w'.
Proof.
  intros Hw H. pose proof Hw as [Hsome Hnone].
  destruct ev as [cb | | i | i d | i | i | k | dt]; cbn in H.
  - injection H as <-. unfold subscribeToUpdates.
    destruct (url_ok w); [ | exact Hw ]. split; cbn.
    + intros i [= <-]. rewrite length_app. cbn. lia.
    + done.
  - injection H as <-. unfold disconnect.
    destruct (wsConnection w) as [i | ] eqn:Hc; [ | exact Hw ].
    split; cbn; [done | ].
    intros _ a. rewrite last_alter.
    specialize (Hsome i eq_refl). destruct (decide _); [ | done ].
    destruct (last (sockets w)) as [b | ]; cbn; [ | done ].
    intros [= <-]. apply close_not_open.
  - destruct (state_of w i) as [[] | ] eqn:Hst; try discriminate H.
    injection H as <-. apply state_of_Some in Hst as (ws & Hi & Hrs).
    split; cbn.
    + intros j Hj. rewrite length_alter. by apply Hsome.
    + intros Hc a. rewrite last_alter.
      destruct (decide _) as [E | E].
      * exfalso. rewrite last_lookup, <- E in Hnone. cbn in Hnone.
        destruct (Hnone Hc ws Hi); congruence.
      * destruct (last (sockets w)) as [b | ] eqn:Hl; cbn; [ | done ].
        intros [= <-]. by apply Hnone.
  - destruct (state_of w i) as [[] | ] eqn:Hst; try discriminate H.
    injection H as <-. unfold onmessage. repeat case_match; exact Hw.
  - destruct (state_of w i) as [[] | ] eqn:Hst; try discriminate H;
      injection H as <-; exact Hw.
  - apply step_close in H as (ws & Hi & Hl & ->).
    rewrite (onclose_socket _ _ _ Hi). split; cbn.
    + intros j Hj. rewrite length_insert. by apply Hsome.
    + intros Hc a. rewrite last_lookup, length_insert.
      destruct (decide (i = pred (length (sockets w)))) as [-> | Hne].
      * rewrite list_lookup_insert_eq
          by (apply lookup_lt_Some in Hi; lia).
        intros [= <-]. by right.
      * rewrite list_lookup_insert_ne by done. rewrite <- last_lookup.
        by apply Hnone.
  - apply step_timeout in H as (t & Hk & _ & ->).
    unfold ontimeout; rewrite Hk. unfold subscribeToUpdates; cbn.
    destruct (url_ok w); [ | exact Hw ]. split; cbn.
    + intros i [= <-]. rewrite length_app. cbn. lia.
    + done.
  - destruct (0 <=? dt); [ | done ]. injection H as <-. exact Hw.
Qed.

Lemma run_ref_ok w evs w' : ref_ok w -> run w evs = Some w' -> ref_ok w'.
Proof.
  revert w. induction evs as [ | ev evs IH]; intros w Hw; cbn.
  - by intros [= <-].
  - destruct (step w ev) as [w1 | ] eqn:H; [ | done ].
    apply IH. by eapply step_ref_ok.
Qed.

(** X9.  In every state the adapter reaches, [wsConnection] is either
    cleared or the socket constructed last, and [isConnected] is true exactly
    when the socket constructed last is open: a socket constructed earlier
    does not count, open or not.  After [disconnect], [isConnected] is
    false. *)
Theorem isConnected_is_about_the_last_socket (url : bool) (now : Z)
    (evs : list event) (w : World) (Hrun : run (fresh url now) evs = Some w) :
  (forall i, wsConnection w = Some i -> S i = length (sockets w)) /\
  (isConnected w = true <->
   exists a, last (sockets w) = Some a /\ readyState a = OPEN) /\
  isConnected (fresh url now) = false /\
  isConnected (disconnect w) = false.
Proof.
  pose proof (run_ref_ok _ _ _ (ref_ok_fresh url now) Hrun) as [Hsome Hnone].
  split; [exact Hsome | ]. split; [ | split ].
  - unfold isConnected. rewrite last_lookup.
    destruct (wsConnection w) as [i | ] eqn:Hc.
    + rewrite <- (Hsome i eq_refl). cbn.
      destruct (sockets w !! i) as [a | ]; [ | split; [done | by intros (? & ? & _)] ].
      rewrite bool_decide_eq_true. split; [ by eauto | ].
      by intros (b & [= <-] & ?).
    + split; [done | ]. intros (a & Ha & Hopen). rewrite <- last_lookup in Ha.
      destruct (Hnone eq_refl a Ha); congruence.
  - reflexivity.
  - unfold isConnected, disconnect.
    destruct (wsConnection w) eqn:E; cbn; by rewrite ?E.
Qed.

Lemma isConnected_is_about_the_last_socket_witness :
  exists w,
    run (fresh true 0) [Subscribe 7%nat; Open 0%nat; Subscribe 7%nat] = Some w /\
    state_of w 0%nat = Some OPEN /\ isConnected w = false.
Proof.
  eexists. split; [reflexivity | ]. split; [reflexivity | ].
  pose proof (proj1 (proj2 (isConnected_is_about_the_last_socket true 0
    [Subscribe 7%nat; Open 0%nat; Subscribe 7%nat] _ eq_refl))) as Hiff.
  destruct (isConnected _) eqn:E; [ | reflexivity ].
  destruct (proj1 Hiff eq_refl) as (a & Ha & Hopen).
  cbn in Ha. injection Ha as <-. discriminate Hopen.
Defined.


Lemma round_result w i ws :
  url_ok w = true -> sockets w !! i = Some ws ->
  ontimeout (length (timers w)) (elapse 5000 (onclose i w)) =
    {| wsConnection := Some (length (sockets w));
       sockets :=
         <[i := mkWebSocket CLOSED (listener ws) (created ws) (Some (clock w))]>
           (sockets w)
         ++ [mkWebSocket CONNECTING (listener ws) (clock w + 5000) None];
       timers := timers w; clock := clock w + 5000; url_ok := true;
       effects := effects w |}.
Proof.
  intros Hu Hi. rewrite (onclose_socket _ _ _ Hi).
  unfold ontimeout, elapse; cbn [timers].
  rewrite lookup_app_r, Nat.sub_diag by done. cbn [lookup list_lookup].
  unfold subscribeToUpdates; cbn. rewrite Hu.
  rewrite length_insert. f_equal.
  rewrite (delete_middle (timers w) []). apply app_nil_r.
Qed.

Lemma round_run w i ws :
  url_ok w = true -> sockets w !! i = Some ws -> live ws = true ->
  run w [Close i; Elapse 5000; Timeout (length (timers w))] =
    Some (ontimeout (length (timers w)) (elapse 5000 (onclose i w))).
Proof.
  intros Hu Hi Hl. cbn [run]. rewrite (step_close_live _ _ _ Hi Hl).
  change (step (onclose i w) (Elapse 5000))
    with (Some (elapse 5000 (onclose i w))).
  cbn [step]. rewrite (onclose_socket _ _ _ Hi). unfold elapse; cbn [timers clock].
  rewrite lookup_app_r, Nat.sub_diag by done. cbn [lookup list_lookup due].
  unfold reconnectDelay.
  by rewrite (proj2 (Z.leb_le _ _) (Z.le_refl _)).
Qed.

(** X10.  [disconnect] does not end the subscription.  In every state the
    adapter reaches, if [wsConnection] refers to a socket that is not closed,
    then after [disconnect], once that socket has closed and 5000 ms have
    passed, the timer set by its close handler fires and constructs a new
    socket with the same callback; when that socket opens, the adapter is
    connected again and sends the subscription message on it. *)
Theorem disconnect_does_not_end_the_loop (url : bool) (now : Z)
    (evs : list event) (w : World) (i : nat) (ws : WebSocket)
    (Hrun : run (fresh url now) evs = Some w)
    (Href : wsConnection w = Some i) (Hi : sockets w !! i = Some ws)
    (Hlive : live ws = true) :
  wsConnection (disconnect w) = None /\ timers (disconnect w) = timers w /\
  exists w',
    run w [Disconnect; Close i; Elapse 5000; Timeout (length (timers w));
           Open (length (sockets w))] = Some w' /\
    wsConnection w' = Some (length (sockets w)) /\
    isConnected w' = true /\
    sockets w' !! length (sockets w) =
      Some (mkWebSocket OPEN (listener ws) (clock w + 5000) None) /\
    effects w' = effects w ++ [Sent (length (sockets w))].
Proof.
  pose proof (run_wf _ _ _ (wf_fresh url now) Hrun) as [Hurl _].
  assert (Hu : url_ok w = true).
  { apply Hurl. left. intros E. by rewrite E in Hi. }
  set (w0 := disconnect w).
  assert (E0 : w0 = {| wsConnection := None;
                       sockets := alter close i (sockets w);
                       timers := timers w; clock := clock w;
                       url_ok := url_ok w; effects := effects w |}).
  { unfold w0, disconnect. by rewrite Href. }
  split; [by rewrite E0 | ]. split; [by rewrite E0 | ].
  assert (Hi0 : sockets w0 !! i = Some (close ws)).
  { rewrite E0; cbn. by rewrite list_lookup_alter_eq, Hi. }
  assert (Hl0 : live (close ws) = true) by (by rewrite close_live).
  assert (Hu0 : url_ok w0 = true) by (by rewrite E0).
  assert (Ht0 : timers w0 = timers w) by (by rewrite E0).
  assert (Hn0 : length (sockets w0) = length (sockets w)).
  { rewrite E0; cbn. apply length_alter. }
  set (n := length (sockets w)) in *.
  set (w3 := ontimeout (length (timers w0)) (elapse 5000 (onclose i w0))).
  assert (E3 : w3 = _) by apply (round_result w0 i (close ws) Hu0 Hi0).
  assert (Hst : state_of w3 n = Some CONNECTING).
  { unfold state_of. rewrite E3; cbn [sockets].
    rewrite lookup_app_r; rewrite length_insert, Hn0; [ | done ].
    by rewrite Nat.sub_diag. }
  exists (onopen n w3). split.
  - change (run w (Disconnect :: ?l)) with (run w0 l).
    change [Close i; Elapse 5000; Timeout (length (timers w)); Open n]
      with ([Close i; Elapse 5000; Timeout (length (timers w))] ++ [Open n]).
    rewrite <- Ht0.
    assert (Happ : forall a l1 l2 b, run a l1 = Some b ->
              run a (l1 ++ l2) = run b l2).
    { intros a l1. revert a. induction l1 as [ | ev l1 IH]; intros a l2 b; cbn.
      - by intros [= ->].
      - destruct (step a ev); [apply IH | done]. }
    rewrite (Happ _ _ _ _ (round_run w0 i (close ws) Hu0 Hi0 Hl0)).
    fold w3. cbn [run step]. by rewrite Hst.
  - assert (Hopened : alter
        (fun ws0 => mkWebSocket OPEN (listener ws0) (created ws0) (closed ws0))
        n (sockets w3) !! n
        = Some (mkWebSocket OPEN (listener ws) (clock w + 5000) None)).
    { rewrite list_lookup_alter_eq. rewrite E3; cbn [sockets].
      rewrite lookup_app_r; rewrite length_insert, Hn0; [ | done ].
      rewrite Nat.sub_diag. cbn. f_equal. f_equal.
      - unfold close. by destruct (readyState ws).
      - by rewrite E0. }
    assert (Hc3 : wsConnection w3 = Some n) by (by rewrite E3; cbn; rewrite Hn0).
    unfold isConnected, onopen; cbn. rewrite Hc3, Hopened. cbn.
    repeat split; try done. rewrite E3; cbn. by rewrite E0.
Qed.

Lemma disconnect_does_not_end_the_loop_witness :
  exists w w',
    run (fresh true 0) [Subscribe 7%nat; Open 0%nat] = Some w /\
    run w [Disconnect; Close 0%nat; Elapse 5000; Timeout 0%nat; Open 1%nat]
      = Some w' /\
    isConnected w' = true.
Proof.
  eexists. 
  destruct (disconnect_does_not_end_the_loop true 0
    [Subscribe 7%nat; Open 0%nat] _ 0%nat (mkWebSocket OPEN 7%nat 0 None)
    eq_refl eq_refl eq_refl eq_refl) as (_ & _ & w' & Hr & _ & Hc & _).
  exists w'. split; [reflexivity | ]. split; [exact Hr | exact Hc].
Defined.


Lemma step_timers_length w ev w' :
  step w ev = Some w' ->
  (length (timers w') + (if is_timeout ev then 1 else 0) =
   length (timers w) + (if is_close ev then 1 else 0))%nat.
Proof.
  intros H. destruct ev as [cb | | i | i d | i | i | k | dt]; cbn [is_timeout is_close].
  - cbn in H. injection H as <-. unfold subscribeToUpdates.
    destruct (url_ok w); cbn; lia.
  - cbn in H. injection H as <-. unfold disconnect.
    destruct (wsConnection w); cbn; lia.
  - cbn in H. destruct (state_of w i) as [[] | ]; try discriminate H.
    injection H as <-. cbn. lia.
  - cbn in H. destruct (state_of w i) as [[] | ]; try discriminate H.
    injection H as <-. unfold onmessage. repeat case_match; cbn; lia.
  - cbn in H. destruct (state_of w i) as [[] | ]; try discriminate H;
      injection H as <-; lia.
  - apply step_close in H as (ws & Hi & _ & ->).
    rewrite (onclose_socket _ _ _ Hi). cbn. rewrite length_app. cbn. lia.
  - apply step_timeout in H as (t & Hk & _ & ->). unfold ontimeout.
    rewrite Hk. unfold subscribeToUpdates; cbn.
    pose proof (lookup_lt_Some _ _ _ Hk).
    destruct (url_ok w); cbn; rewrite length_delete by (by rewrite Hk); lia.
  - cbn in H. destruct (0 <=? dt); [ | done ]. injection H as <-. cbn. lia.
Qed.

Lemma run_counts w evs w' :
  run w evs = Some w' -> url_ok w = true ->
  (length (sockets w') =
   length (sockets w) + length (List.filter is_subscribe evs)
   + length (List.filter is_timeout evs))%nat /\
  (length (timers w') + length (List.filter is_timeout evs) =
   length (timers w) + length (List.filter is_close evs))%nat.
Proof.
  revert w. induction evs as [ | ev evs IH]; intros w; cbn [run].
  - intros [= <-] _. cbn. lia.
  - destruct (step w ev) as [w1 | ] eqn:Hs; [ | done ]. intros Hr Hu.
    assert (Hu1 : url_ok w1 = true) by (by rewrite (step_url_ok _ _ _ Hs)).
    destruct (IH _ Hr Hu1) as [E1 E2].
    pose proof (step_sockets_length _ _ _ Hs) as S1. rewrite Hu in S1.
    pose proof (step_timers_length _ _ _ Hs) as S2.
    cbn [List.filter].
    destruct ev; cbn [is_subscribe is_timeout is_close] in *; cbn [length]; lia.
Qed.

(** X11.  Reconnections are counted exactly.  After any sequence of calls
    and events on an adapter whose URL is accepted, the sockets constructed
    so far number the outside calls of [subscribeToUpdates] plus the timers
    that have fired; every close event has set one timer, which is pending
    or has fired; and the sockets that are closed number the close
    events. *)
Theorem reconnections_are_counted (now : Z) (evs : list event) (w : World)
    (Hrun : run (fresh true now) evs = Some w) :
  (length (sockets w) =
   length (List.filter is_subscribe evs) + length (List.filter is_timeout evs))%nat /\
  (length (timers w) + length (List.filter is_timeout evs) =
   length (List.filter is_close evs))%nat /\
  (length (sockets w) - live_count w = length (List.filter is_close evs))%nat.
Proof.
  destruct (run_counts _ _ _ Hrun eq_refl) as [E1 E2]. cbn in E1, E2.
  pose proof (run_sustained _ _ _ Hrun eq_refl) as E3.
  unfold live_count in E3 at 2. cbn in E3.
  split; [lia | ]. split; [lia | lia].
Qed.

Lemma reconnections_are_counted_witness :
  exists w,
    run (fresh true 0)
      [Subscribe 7%nat; Close 0%nat; Elapse 5000; Timeout 0%nat; Close 1%nat]
      = Some w /\
    length (sockets w) = 2%nat /\ length (timers w) = 1%nat.
Proof.
  eexists. split; [reflexivity | ].
  destruct (reconnections_are_counted 0
    [Subscribe 7%nat; Close 0%nat; Elapse 5000; Timeout 0%nat; Close 1%nat]
    _ eq_refl) as (E1 & E2 & _).
  split; [exact E1 | ]. cbn in E2 |- *. lia.
Defined.

(** X12.  The subscription message goes to the socket constructed last,
    not to the socket that opened.  In every state the adapter reaches,
    when the socket constructed last opens, exactly one subscription message
    is sent, on that socket; when an older socket opens, none is sent on it:
    either nothing is sent, or one more message goes to the last socket,
    which is then already open. *)
Theorem subscription_message_goes_to_the_last_socket (url : bool) (now : Z)
    (evs : list event) (w : World) (i : nat) (w' : World)
    (Hrun : run (fresh url now) evs = Some w)
    (Hopen : step w (Open i) = Some w') :
  (S i = length (sockets w) -> effects w' = effects w ++ [Sent i]) /\
  (S i <> length (sockets w) ->
     effects w' = effects w \/
     exists j, S j = length (sockets w) /\ j <> i /\
       state_of w j = Some OPEN /\ effects w' = effects w ++ [Sent j]).
Proof.
  pose proof (run_ref_ok _ _ _ (ref_ok_fresh url now) Hrun) as [Hsome Hnone].
  cbn in Hopen.
  destruct (state_of w i) as [[] | ] eqn:Hst; try discriminate Hopen.
  injection Hopen as <-. apply state_of_Some in Hst as (ws & Hi & Hrs).
  unfold onopen; cbn [effects]. split.
  - intros Hlast.
    destruct (wsConnection w) as [j | ] eqn:Hc.
    + assert (j = i) as -> by (specialize (Hsome j eq_refl); lia).
      rewrite list_lookup_alter_eq, Hi. cbn. done.
    + exfalso. specialize (Hnone eq_refl ws).
      rewrite last_lookup, <- Hlast in Hnone. cbn in Hnone.
      destruct (Hnone Hi); congruence.
  - intros Hold.
    destruct (wsConnection w) as [j | ] eqn:Hc; [ | by left ].
    specialize (Hsome j eq_refl).
    assert (Hne : i <> j) by lia.
    rewrite list_lookup_alter_ne by done.
    destruct (sockets w !! j) as [a | ] eqn:Hj; [ | by left ].
    destruct (bool_decide (readyState a = OPEN)) eqn:Ha; [ | by left ].
    apply bool_decide_eq_true in Ha. right. exists j.
    split; [done | ]. split; [lia | ]. split; [ | done ].
    unfold state_of. by rewrite Hj; cbn; rewrite Ha.
Qed.

Lemma subscription_message_goes_to_the_last_socket_witness :
  exists w w',
    run (fresh true 0) [Subscribe 7%nat; Subscribe 8%nat; Open 1%nat] = Some w /\
    step w (Open 0%nat) = Some w' /\
    effects w' = [Sent 1%nat; Sent 1%nat].
Proof.
  eexists _, _. split; [reflexivity | ]. split; [reflexivity | ].
  destruct (proj2 (subscription_message_goes_to_the_last_socket true 0
    [Subscribe 7%nat; Subscribe 8%nat; Open 1%nat] _ 0%nat _ eq_refl eq_refl))
    as [E | (j & _ & _ & _ & E)].
  - cbn. lia.
  - reflexivity.
  - reflexivity.
Defined.


(** *** Inbound messages *)

Lemma ticks_allMids cb now (msg m : gmap string json) :
  msg !! "channel" = Some (JString "allMids") ->
  msg !! "data" = Some (JObject m) ->
  ticks cb now (JObject msg) =
    Return (omap (fun entry : string * json =>
              match entry.2 with
              | JString price => Some (Called cb (tick entry.1 price now))
              | _ => None
              end) (map_to_list m)).
Proof. intros Hc Hd. unfold ticks; cbn. rewrite Hc, Hd. reflexivity. Qed.

Lemma NoDup_omap_keys {B} (f : string * json -> option B) (key : B -> string)
    (l : list (string * json)) :
  (forall x y, f x = Some y -> key y = x.1) ->
  NoDup l.*1 -> NoDup (omap f l).
Proof.
  intros Hkey. induction l as [ | x l IH]; cbn; [constructor | ].
  intros [Hx Hl]%NoDup_cons. destruct (f x) as [y | ] eqn:Hy; [ | by apply IH ].
  constructor; [ | by apply IH ].
  intros (x' & Hin & Hy')%list_elem_of_omap. apply Hx.
  rewrite <- (Hkey _ _ Hy), (Hkey _ _ Hy'). by apply list_elem_of_fmap_2.
Qed.

Lemma onmessage_same_state w i data :
  wsConnection (onmessage i data w) = wsConnection w /\
  sockets (onmessage i data w) = sockets w /\
  timers (onmessage i data w) = timers w /\
  clock (onmessage i data w) = clock w /\
  url_ok (onmessage i data w) = url_ok w.
Proof. unfold onmessage. by repeat case_match. Qed.

Lemma world_effects_nil w :
  {| wsConnection := wsConnection w; sockets := sockets w; timers := timers w;
     clock := clock w; url_ok := url_ok w; effects := effects w ++ [] |} = w.
Proof. destruct w; cbn. by rewrite app_nil_r. Qed.



(** X14.  A message never harms the connection, and a message the handler
    cannot use is dropped.  Whatever arrives on an open socket, the handler
    leaves [wsConnection], the sockets and the timers as they are.  Text
    that does not parse, the value [null], an object whose [channel] is not
    the string "allMids", and an object whose [data] is absent or falsy
    change nothing at all: no callback is called. *)
Theorem unusable_messages_are_dropped (w : World) (i : nat) (data : body)
    (w' : World) (Hstep : step w (Message i data) = Some w') :
  wsConnection w' = wsConnection w /\ sockets w' = sockets w /\
  timers w' = timers w /\ clock w' = clock w /\
  (forall e, data = Malformed e -> w' = w) /\
  (data = Parsed JNull -> w' = w) /\
  (forall msg, data = Parsed (JObject msg) ->
     msg !! "channel" <> Some (JString "allMids") -> w' = w) /\
  (forall msg, data = Parsed (JObject msg) ->
     truthy_opt (msg !! "data") = false -> w' = w).
Proof.
  cbn in Hstep. destruct (state_of w i) as [[] | ] eqn:Hst; try discriminate Hstep.
  injection Hstep as <-. apply state_of_Some in Hst as (ws & Hi & _).
  destruct (onmessage_same_state w i data) as (? & ? & ? & ? & _).
  do 4 (split; [done | ]). unfold onmessage. rewrite Hi.
  split; [ | split; [ | split ] ].
  - by intros e ->.
  - by intros ->.
  - intros msg -> Hc. unfold ticks; cbn.
    destruct (msg !! "channel") as [[ | | | c | | ] | ] eqn:Ec; cbn;
      try apply world_effects_nil.
    destruct (msg !! "data") as [d | ]; cbn; [ | apply world_effects_nil ].
    destruct (String.eqb_spec c "allMids") as [-> | Hne]; [done | ].
    cbn. apply world_effects_nil.
  - intros msg -> Hd. unfold ticks; cbn.
    destruct (msg !! "channel") as [[ | | | c | | ] | ] eqn:Ec; cbn;
      try apply world_effects_nil.
    destruct (msg !! "data") as [d | ]; cbn in *; [ | apply world_effects_nil ].
    rewrite Hd, andb_false_r. cbn. apply world_effects_nil.
Qed.

Lemma unusable_messages_are_dropped_witness :
  step (onopen 0 (subscribeToUpdates 7%nat (fresh true 0)))
    (Message 0%nat (Malformed (mkExn "SyntaxError" "Unexpected token")))
  = Some (onopen 0 (subscribeToUpdates 7%nat (fresh true 0))).
Proof.
  assert (H : step (onopen 0 (subscribeToUpdates 7%nat (fresh true 0)))
    (Message 0%nat (Malformed (mkExn "SyntaxError" "Unexpected token")))
    = Some (onmessage 0 (Malformed (mkExn "SyntaxError" "Unexpected token"))
              (onopen 0 (subscribeToUpdates 7%nat (fresh true 0)))))
    by reflexivity.
  rewrite H. apply (f_equal Some).
  exact (proj1 (proj2 (proj2 (proj2 (proj2
    (unusable_messages_are_dropped _ _ _ _ H))))) _ eq_refl).
Defined.


(** *** Which callbacks are called, and with what *)

Lemma known_mono (P Q : callback -> Prop) since w :
  (forall c, P c -> Q c) -> known P since w -> known Q since w.
Proof.
  intros HPQ (Hc & Hs & Ht & He). split; [done | ].
  split; [ by intros ws ?; apply HPQ, Hs | ].
  split; [ by intros t ?; apply HPQ, Ht | ].
  intros e Hin. specialize (He e Hin). destruct e as [j | cb d]; [done | ].
  destruct He as (? & ? & ?). split; [by apply HPQ | done].
Qed.

Lemma ticks_calls cb now message calls :
  ticks cb now message = Return calls ->
  forall e, e ∈ calls -> exists k s, e = Called cb (tick k s now).
Proof.
  unfold ticks.
  destruct (get message "channel") as [c | ]; cbn; [ | done ].
  destruct (get message "data") as [d | ]; cbn; [ | done ].
  assert (Hnil : forall e, e ∈ @nil effect ->
            exists k s, e = Called cb (tick k s now))
    by (by intros e ?%elem_of_nil).
  destruct c as [[ | | | c | | ] | ]; try (by intros [= <-]).
  destruct d as [d | ]; [ | by intros [= <-] ].
  destruct (String.eqb c "allMids" && JS.truthy d); [ | by intros [= <-] ].
  destruct (Object_entries d) as [entries | ]; cbn; [ | done ].
  intros [= <-] e ([k v] & _ & He)%list_elem_of_omap. cbn in He.
  destruct v; try discriminate He. injection He as <-. by eauto.
Qed.

Lemma alter_listener (f : WebSocket -> WebSocket) (i : nat)
    (l : list WebSocket) ws' :
  (forall ws, listener (f ws) = listener ws) ->
  ws' ∈ alter f i l -> exists ws, ws ∈ l /\ listener ws' = listener ws.
Proof.
  intros Hf (j & Hj)%list_elem_of_lookup. rewrite list_lookup_alter in Hj.
  destruct (decide (i = j)) as [-> | ].
  - destruct (l !! j) as [ws | ] eqn:E; [ | done ]. injection Hj as <-.
    exists ws. split; [by eapply list_elem_of_lookup_2 | apply Hf].
  - exists ws'. split; [by eapply list_elem_of_lookup_2 | done].
Qed.

Lemma known_effects_weaken (P : callback -> Prop) since w (l : list WebSocket) c :
  (length (sockets w) <= length l)%nat -> clock w <= c ->
  (forall e, e ∈ effects w ->
     match e with
     | Sent j => (j < length (sockets w))%nat
     | Called cb d =>
         P cb /\ since <= timestamp d <= clock w /\
         exists k s, d = tick k s (timestamp d)
     end) ->
  forall e, e ∈ effects w ->
    match e with
    | Sent j => (j < length l)%nat
    | Called cb d =>
        P cb /\ since <= timestamp d <= c /\
        exists k s, d = tick k s (timestamp d)
    end.
Proof.
  intros Hl Hc He e Hin. specialize (He e Hin).
  destruct e as [j | cb d]; [lia | ].
  destruct He as (? & ? & ?). split; [done | ]. split; [lia | done].
Qed.

Lemma step_known (P : callback -> Prop) since w ev w' :
  known P since w -> step w ev = Some w' ->
  known (fun c => P c \/ ev = Subscribe c) since w'.
Proof.
  intros Hk H.
  assert (Hk' : known (fun c => P c \/ ev = Subscribe c) since w)
    by (eapply known_mono; [ | exact Hk ]; by left).
  clear Hk. destruct Hk' as (Hc & Hs & Ht & He).
  destruct ev as [cb | | i | i d | i | i | k | dt]; cbn in H.
  - injection H as <-. unfold subscribeToUpdates.
    destruct (url_ok w); [ | done ]. split; [done | ]. cbn. split; [ | split ].
    + intros ws [Hin | ->%list_elem_of_singleton]%elem_of_app;
        [by apply Hs | by right].
    + done.
    + apply (known_effects_weaken _ since w); [ | lia | done ].
      rewrite length_app. cbn. lia.
  - injection H as <-. unfold disconnect.
    destruct (wsConnection w) as [i | ]; [ | done ].
    split; [done | ]. cbn. split; [ | split ].
    + intros ws' (ws & Hin & ->)%alter_listener; [by apply Hs | ].
      intros ws. unfold close. by destruct (readyState ws).
    + done.
    + apply (known_effects_weaken _ since w); [ | lia | done ].
      by rewrite length_alter.
  - destruct (state_of w i) as [[] | ] eqn:Hst; try discriminate H.
    injection H as <-. split; [done | ]. cbn. split; [ | split ].
    + intros ws' (ws & Hin & ->)%alter_listener; [by apply Hs | done].
    + done.
    + assert (Hold : forall e, e ∈ effects w ->
          match e with
          | Sent j => (j < length (alter
              (fun ws => mkWebSocket OPEN (listener ws) (created ws) (closed ws))
              i (sockets w)))%nat
          | Called cb d =>
              (P cb \/ Open i = Subscribe cb) /\
              since <= timestamp d <= clock w /\
              exists k s, d = tick k s (timestamp d)
          end).
      { apply (known_effects_weaken _ since w); [ | lia | done ].
        by rewrite length_alter. }
      destruct (wsConnection w) as [j | ]; [ | done ].
      destruct (alter _ i (sockets w) !! j) as [a | ] eqn:Hj; [ | done ].
      destruct (bool_decide _); [ | done ].
      intros e [Hin | ->%list_elem_of_singleton]%elem_of_app; [by apply Hold | ].
      by eapply lookup_lt_Some.
  - destruct (state_of w i) as [[] | ] eqn:Hst; try discriminate H.
    injection H as <-. apply state_of_Some in Hst as (ws & Hi & _).
    unfold onmessage. rewrite Hi.
    destruct d as [message | e]; [ | done ].
    destruct (ticks (listener ws) (clock w) message) as [calls | e] eqn:Hcalls;
      [ | done ].
    split; [done | ]. cbn. split; [done | ]. split; [done | ].
    intros e [Hin | Hin]%elem_of_app; [by apply He | ].
    destruct (ticks_calls _ _ _ _ Hcalls e Hin) as (k & s & ->).
    split; [ apply Hs; by eapply list_elem_of_lookup_2 | ].
    cbn. split; [lia | by eauto].
  - destruct (state_of w i) as [[] | ] eqn:Hst; try discriminate H;
      by injection H as <-.
  - apply step_close in H as (ws & Hi & _ & ->).
    rewrite (onclose_socket _ _ _ Hi). split; [done | ]. cbn.
    assert (Hws : P (listener ws) \/ Close i = Subscribe (listener ws))
      by (apply Hs; by eapply list_elem_of_lookup_2).
    split; [ | split ].
    + intros ws' (j & Hj)%list_elem_of_lookup.
      destruct (decide (i = j)) as [-> | Hne].
      * rewrite list_lookup_insert_eq in Hj by (by eapply lookup_lt_Some).
        by injection Hj as <-.
      * rewrite list_lookup_insert_ne in Hj by done.
        apply Hs. by eapply list_elem_of_lookup_2.
    + intros t [Hin | ->%list_elem_of_singleton]%elem_of_app;
        [by apply Ht | done].
    + apply (known_effects_weaken _ since w); [ | lia | done ].
      by rewrite length_insert.
  - apply step_timeout in H as (t & Hk & _ & ->).
    unfold ontimeout. rewrite Hk. unfold subscribeToUpdates; cbn.
    assert (Ht' : forall t', t' ∈ delete k (timers w) ->
              P (retry t') \/ Timeout k = Subscribe (retry t'))
      by (intros t' Hin%list_elem_of_delete_inv; by apply Ht).
    destruct (url_ok w); (split; [done | ]); cbn; (split; [ | split; [done | ] ]).
    + intros ws [Hin | ->%list_elem_of_singleton]%elem_of_app; [by apply Hs | ].
      cbn. apply Ht. by eapply list_elem_of_lookup_2.
    + apply (known_effects_weaken _ since w); [ | lia | done ].
      rewrite length_app. cbn. lia.
    + done.
    + done.
  - destruct (0 <=? dt) eqn:Hdt; [ | done ]. injection H as <-.
    apply Z.leb_le in Hdt. split; [cbn; lia | ]. cbn.
    split; [done | ]. split; [done | ].
    apply (known_effects_weaken _ since w); [lia | lia | done].
Qed.

Lemma run_known (P : callback -> Prop) since w evs w' :
  known P since w -> run w evs = Some w' ->
  known (fun c => P c \/ c ∈ subscribed evs) since w'.
Proof.
  revert P w. induction evs as [ | ev evs IH]; intros P w Hk; cbn [run].
  - intros [= <-]. eapply known_mono; [ | exact Hk ]. by left.
  - destruct (step w ev) as [w1 | ] eqn:Hs; [ | done ]. intros Hr.
    pose proof (IH _ _ (step_known _ _ _ _ _ Hk Hs) Hr) as Hk'.
    eapply known_mono; [ | exact Hk' ].
    intros c [[Hp | ->] | Hin]; [by left | | ].
    + right. cbn. left.
    + right. unfold subscribed. cbn. destruct ev; try done. by right.
Qed.

(** X15.  The adapter calls only callbacks it was given, and every call
    carries placeholder data.  After any sequence of calls and events on a
    fresh adapter, each call made so far went to a callback handed to
    [subscribeToUpdates] from outside; its data has a timestamp between the
    adapter's creation and the current clock and zero in [volume24h],
    [change24h], [high24h] and [low24h]; every socket serves such a
    callback; and every subscription message was sent on a socket the
    adapter constructed. *)
Theorem only_subscribed_callbacks_are_called (url : bool) (now : Z)
    (evs : list event) (w : World) (Hrun : run (fresh url now) evs = Some w) :
  (forall cb d, Called cb d ∈ effects w ->
     cb ∈ subscribed evs /\ now <= timestamp d <= clock w /\
     volume24h d = zero /\ change24h d = zero /\
     high24h d = zero /\ low24h d = zero) /\
  (forall ws, ws ∈ sockets w -> listener ws ∈ subscribed evs) /\
  (forall j, Sent j ∈ effects w -> (j < length (sockets w))%nat).
Proof.
  assert (Hk0 : known (fun _ => False) now (fresh url now)).
  { split; [cbn; lia | ]. cbn.
    split; [ by intros ? ?%elem_of_nil | ].
    split; by intros ? ?%elem_of_nil. }
  destruct (run_known _ _ _ _ _ Hk0 Hrun) as (_ & Hs & _ & He).
  split; [ | split ].
  - intros cb d Hin. destruct (He _ Hin) as ([[] | Hcb] & Hts & k & s & Hd).
    split; [done | ]. split; [done | ]. by rewrite Hd.
  - intros ws Hin. by destruct (Hs ws Hin) as [[] | ?].
  - intros j Hin. exact (He _ Hin).
Qed.

Lemma only_subscribed_callbacks_are_called_witness :
  exists w,
    run (fresh true 0)
      [Subscribe 7%nat; Open 0%nat; Elapse 250;
       Message 0%nat (Parsed (JObject
         (<["channel" := JString "allMids"]>
            (<["data" := JObject (<["HYPE" := JString "41.25"]> ∅)]> ∅))))]
      = Some w /\
    effects w = [Sent 0%nat; Called 7%nat (tick "HYPE" "41.25" 250)] /\
    (forall cb d, Called cb d ∈ effects w -> cb = 7%nat).
Proof.
  assert (Hrun : run (fresh true 0)
      [Subscribe 7%nat; Open 0%nat; Elapse 250;
       Message 0%nat (Parsed (JObject
         (<["channel" := JString "allMids"]>
            (<["data" := JObject (<["HYPE" := JString "41.25"]> ∅)]> ∅))))]
      = Some {| wsConnection := Some 0%nat;
                sockets := [mkWebSocket OPEN 7%nat 0 None];
                timers := []; clock := 250; url_ok := true;
                effects := [Sent 0%nat; Called 7%nat (tick "HYPE" "41.25" 250)] |}).
  { vm_compute. reflexivity. }
  eexists. split; [exact Hrun | ]. split; [reflexivity | ].
  intros cb d Hin.
  destruct (proj1 (only_subscribed_callbacks_are_called true 0 _ _ Hrun) cb d Hin)
    as [Hcb _].
  unfold subscribed in Hcb. cbn [omap list_omap] in Hcb.
  by apply list_elem_of_singleton in Hcb.
Defined.
